(** * shpdeck: shapefile geometries to deck markup

    A shallow embedding of [shpdeck.go]: the interval mapper [vmap], the
    style splitter [colorop], the three markup emitters, the dispatcher
    [mapshape] and the geometry adapters, followed by the properties checked
    against the specification.

    Conventions of the embedding
    - [float64] is IEEE 754 binary64 as given by the Standard Library's
      [SpecFloat] (sign, mantissa, exponent; every operation rounds to
      nearest, ties to even).
    - a Go [string] is a sequence of bytes: Rocq's [string].
    - a Go [int] is a [Z]; slice lengths never leave the 64-bit range, so no
      wrap-around is written for them.  The [int32] fields of the go-shp
      records wrap explicitly.
    - the [io.Writer] is the buffer of bytes written so far; a run-time
      panic (index out of range) keeps what was written before it.  The
      program drops every error a write may return, so none is modelled.
    - the records an adapter receives through a pointer are present (the
      pointer is not nil). *)

From Stdlib Require Import ZArith List String Ascii Bool Lia QArith Lqa.
From Stdlib Require Import DecimalString.
From Stdlib Require Import Floats.SpecFloat.
Import ListNotations.

Local Open Scope string_scope.
Local Open Scope Z_scope.

(** ** binary64 *)

Module F64.

Definition prec : Z := 53.
Definition emax : Z := 1024.

Definition t : Type := spec_float.

Definition add : t -> t -> t := SFadd prec emax.
Definition sub : t -> t -> t := SFsub prec emax.
Definition mul : t -> t -> t := SFmul prec emax.
Definition div : t -> t -> t := SFdiv prec emax.

(** Go's [==] on float64. *)
Definition eqb : t -> t -> bool := SFeqb.

(** The float64 nearest to the integer [z], and to the fraction [n/d]. *)
Definition of_Z (z : Z) : t := binary_normalize prec emax z 0 false.
Definition of_frac (n d : Z) : t := div (of_Z n) (of_Z d).



(** A number: neither NaN nor an infinity. *)
Definition is_number (x : t) : bool :=
  match x with
  | S754_zero _ | S754_finite _ _ _ => true
  | _ => false
  end.

Definition is_zero (x : t) : bool :=
  match x with
  | S754_zero _ => true
  | _ => false
  end.


End F64.

Abbreviation float64 := F64.t.

(** ** The pieces of package fmt the program uses *)

Module Fmt.

(** The double quote and the line feed. *)
Definition DQ : string := String "034"%char EmptyString.
Definition LF : string := String "010"%char EmptyString.

Definition decimal (n : Z) : string :=
  NilZero.string_of_uint (N.to_uint (Z.to_N n)).

(** [n] written with exactly [width] digits, zero padded; [n < 10^width]. *)
Definition padded (width : nat) (n : Z) : string :=
  match decimal (10 ^ Z.of_nat width + n) with
  | String _ rest => rest
  | EmptyString => EmptyString
  end.

(** [num / den] rounded to the nearest integer, ties to even
    ([0 <= num], [0 < den]). *)
Definition round_half_even (num den : Z) : Z :=
  let q := num / den in
  let r := num mod den in
  match 2 * r ?= den with
  | Lt => q
  | Eq => if Z.even q then q else q + 1
  | Gt => q + 1
  end.

(** [m * 2^e * 10^digits], rounded to an integer. *)
Definition scaled (digits : nat) (m : positive) (e : Z) : Z :=
  match e with
  | Zneg p => round_half_even (Zpos m * 10 ^ Z.of_nat digits) (2 ^ Zpos p)
  | _ => Zpos m * 2 ^ e * 10 ^ Z.of_nat digits
  end.

Definition fixed (digits : nat) (n : Z) : string :=
  let unit := 10 ^ Z.of_nat digits in
  match digits with
  | O => decimal n
  | _ => decimal (n / unit) ++ "." ++ padded digits (n mod unit)
  end.

(** The verb [%.<digits>f] at a float64: strconv.FormatFloat(v, 'f',
    digits, 64), which rounds the exact binary value to [digits] decimals,
    ties to even, and keeps the sign of a negative zero. *)
Definition f (digits : nat) (v : float64) : string :=
  match v with
  | S754_nan => "NaN"
  | S754_infinity false => "+Inf"
  | S754_infinity true => "-Inf"
  | S754_zero s => (if s then "-" else "") ++ fixed digits 0
  | S754_finite s m e =>
      (if s then "-" else "") ++ fixed digits (scaled digits m e)
  end.

Definition lowerhex (n : N) : string :=
  String (match n with
          | 0 => "0" | 1 => "1" | 2 => "2" | 3 => "3" | 4 => "4"
          | 5 => "5" | 6 => "6" | 7 => "7" | 8 => "8" | 9 => "9"
          | 10 => "a" | 11 => "b" | 12 => "c" | 13 => "d" | 14 => "e"
          | _ => "f"
          end%N%char) EmptyString.

Definition BS : string := String "092"%char EmptyString.

(** The part of strconv.IsPrint that is a table lookup: whether a rune
    above U+00FF is printable (the tables of strconv/isprint.go, which are
    generated from the Unicode data and are taken as given). *)
Class PrintTable : Type := printable_beyond_latin1 : N -> bool.

(** strconv.IsPrint: closed form up to U+00FF, the table beyond. *)
Definition IsPrint `{PrintTable} (r : N) : bool :=
  if (r <=? 255)%N then
    if ((32 <=? r) && (r <=? 126))%N then true
    else if (161 <=? r)%N then negb (r =? 173)%N
    else false
  else printable_beyond_latin1 r.

Definition hex2 (n : N) : string := lowerhex (n / 16) ++ lowerhex (n mod 16).
Definition hex4 (n : N) : string := hex2 (n / 256) ++ hex2 (n mod 256).
Definition hex8 (n : N) : string := hex4 (n / 65536) ++ hex4 (n mod 65536).

(** strconv's escape of one byte below 0x80 inside a double-quoted
    literal. *)
Definition quote_byte (c : ascii) : string :=
  let n := N_of_ascii c in
  if (n =? 34)%N then BS ++ DQ
  else if (n =? 92)%N then BS ++ BS
  else if ((32 <=? n) && (n <=? 126))%N then String c EmptyString
  else match n with
       | 7 => BS ++ "a"
       | 8 => BS ++ "b"
       | 12 => BS ++ "f"
       | 10 => BS ++ "n"
       | 13 => BS ++ "r"
       | 9 => BS ++ "t"
       | 11 => BS ++ "v"
       | _ => BS ++ "x" ++ hex2 n
       end%N.

(** A continuation byte within [lo, hi]. *)
Definition within (lo hi : N) (c : ascii) : bool :=
  ((lo <=? N_of_ascii c) && (N_of_ascii c <=? hi))%N.

Definition low6 (c : ascii) : N := (N_of_ascii c - 128)%N.

(** utf8.DecodeRuneInString at a string whose first byte is 0x80 or more:
    the rune and its width in bytes, or [None] for (RuneError, 1), an
    invalid or truncated encoding. *)
Definition decode (s : string) : option (N * nat) :=
  match s with
  | EmptyString => None
  | String b0 rest =>
      let n0 := N_of_ascii b0 in
      if (n0 <? 194)%N then None
      else if (n0 <? 224)%N then
        match rest with
        | String b1 _ =>
            if within 128 191 b1
            then Some (((n0 - 192) * 64 + low6 b1)%N, 2%nat)
            else None
        | _ => None
        end
      else if (n0 <? 240)%N then
        match rest with
        | String b1 (String b2 _) =>
            if within (if (n0 =? 224)%N then 160 else 128)
                      (if (n0 =? 237)%N then 159 else 191) b1
               && within 128 191 b2
            then Some ((((n0 - 224) * 64 + low6 b1) * 64 + low6 b2)%N, 3%nat)
            else None
        | _ => None
        end
      else if (n0 <? 245)%N then
        match rest with
        | String b1 (String b2 (String b3 _)) =>
            if within (if (n0 =? 240)%N then 144 else 128)
                      (if (n0 =? 244)%N then 143 else 191) b1
               && within 128 191 b2 && within 128 191 b3
            then Some (((((n0 - 240) * 64 + low6 b1) * 64 + low6 b2) * 64
                        + low6 b3)%N, 4%nat)
            else None
        | _ => None
        end
      else None
  end.

(** The escape of a rune from U+0080 on that is not printable. *)
Definition escape_rune (r : N) : string :=
  if (r <? 65536)%N then BS ++ "u" ++ hex4 r else BS ++ "U" ++ hex8 r.

(** The loop of strconv.Quote over the bytes of [s]; [skip] counts the
    bytes still to pass of a rune that has been written. *)
Fixpoint quote_runes `{PrintTable} (s : string) (skip : nat) : string :=
  match s with
  | EmptyString => EmptyString
  | String c rest =>
      match skip with
      | S k => quote_runes rest k
      | O =>
          if (N_of_ascii c <? 128)%N then quote_byte c ++ quote_runes rest 0
          else match decode s with
               | None => BS ++ "x" ++ hex2 (N_of_ascii c) ++ quote_runes rest 0
               | Some (r, width) =>
                   (if IsPrint r then substring 0 width s else escape_rune r)
                   ++ quote_runes rest (width - 1)
               end
      end
  end.

(** The verb [%q] at a string: strconv.Quote. *)
Definition q `{PrintTable} (s : string) : string :=
  DQ ++ quote_runes s 0 ++ DQ.

End Fmt.

(** ** strings.Index and slicing *)

Module Strings.

(** Byte offset of the first [c] in [s], or [-1]: strings.Index with a
    one-byte separator. *)
Fixpoint IndexByte (s : string) (c : ascii) : Z :=
  match s with
  | EmptyString => -1
  | String a rest =>
      if Ascii.eqb a c then 0
      else let i := IndexByte rest c in
           if i <? 0 then -1 else i + 1
  end.

(** [s[lo:hi]] for [0 <= lo <= hi <= len(s)]. *)
Definition slice (s : string) (lo hi : Z) : string :=
  substring (Z.to_nat lo) (Z.to_nat (hi - lo)) s.

Definition len (s : string) : Z := Z.of_nat (String.length s).

End Strings.

(** ** vmap *)

(** The four operations of the mapping, so that its one expression can be
    read over float64, as the program computes it, and over the rationals,
    where nothing is rounded. *)
Class Arith (T : Type) : Type := {
  add : T -> T -> T;
  sub : T -> T -> T;
  mul : T -> T -> T;
  div : T -> T -> T
}.

Declare Scope arith_scope.
Delimit Scope arith_scope with arith.
Infix "+" := add : arith_scope.
Infix "-" := sub : arith_scope.
Infix "*" := mul : arith_scope.
Infix "/" := div : arith_scope.

#[global] Instance float64_arith : Arith float64 := {
  add := F64.add; sub := F64.sub; mul := F64.mul; div := F64.div
}.

#[global] Instance exact_arith : Arith Q := {
  add := Qplus; sub := Qminus; mul := Qmult; div := Qdiv
}.

(** vmap maps one interval to another. *)
Definition vmap {T : Type} `{Arith T} (value low1 high1 low2 high2 : T) : T :=
  (low2 + (high2 - low2) * (value - low1) / (high1 - low1))%arith.

(** ** colorop *)

(** colorop makes a color and optional opacity in the form of name:op. *)
Definition colorop (color : string) : string * string :=
  let ci := Strings.IndexByte color ":"%char in
  let op := "100" in
  if (0 <? ci) && (ci <? Strings.len color)
  then (Strings.slice color 0 ci,
        Strings.slice color (ci + 1) (Strings.len color))
  else (color, op).

(** ** Writing to the destination, and panics *)

Module IO.

(** What a call leaves behind: the destination's contents, and either the
    value returned or the fact that the call panicked. *)
Inductive result (A : Type) : Type :=
| Ok (a : A) (w : string)
| Panic (w : string).
Arguments Ok {A} a w.
Arguments Panic {A} w.

Definition t (A : Type) : Type := string -> result A.

Definition ret {A} (a : A) : t A := fun w => Ok a w.

Definition bind {A B} (m : t A) (k : A -> t B) : t B :=
  fun w => match m w with
           | Ok a w' => k a w'
           | Panic w' => Panic w'
           end.

(** fmt.Fprintf(w, ...) with the formatted text [s]; the program drops
    the error the writer may return. *)
Definition Fprintf (s : string) : t unit := fun w => Ok tt (w ++ s).

Definition panic {A} : t A := fun w => Panic w.

(** [l[i]]: index out of range panics. *)
Definition index {A} (l : list A) (i : Z) : t A :=
  if i <? 0 then panic
  else match nth_error l (Z.to_nat i) with
       | Some a => ret a
       | None => panic
       end.

(** [n] rounds of a counting loop from [i], threading the loop's local
    variables [acc]. *)
Fixpoint rounds {A} (n : nat) (i : Z) (acc : A) (body : Z -> A -> t A)
  : t A :=
  match n with
  | O => ret acc
  | S n' => bind (body i acc) (fun acc' => rounds n' (i + 1) acc' body)
  end.

(** [for i := lo; i < hi; i++ { body }] where the body assigns neither
    [i] nor the bound. *)
Definition fold_lt {A} (lo hi : Z) (acc : A) (body : Z -> A -> t A) : t A :=
  rounds (Z.to_nat (hi - lo)) lo acc body.

Definition for_lt (lo hi : Z) (body : Z -> t unit) : t unit :=
  fold_lt lo hi tt (fun i _ => body i).

(** One action per element, in order. *)
Fixpoint for_each {A} (l : list A) (body : A -> t unit) : t unit :=
  match l with
  | [] => ret tt
  | a :: rest => bind (body a) (fun _ => for_each rest body)
  end.

(** Whether a call panicked. *)
Definition panics {A} (r : result A) : bool :=
  match r with
  | Ok _ _ => false
  | Panic _ => true
  end.

End IO.

Declare Scope io_scope.
Delimit Scope io_scope with io.
Notation "x <- m ;; k" := (IO.bind m (fun x => k))
  (at level 100, m at next level, right associativity) : io_scope.
Notation "m ;; k" := (IO.bind m (fun _ => k))
  (at level 100, right associativity) : io_scope.
Local Open Scope io_scope.

Definition len {A} (l : list A) : Z := Z.of_nat (List.length l).

(** ** The records *)

Record Geometry : Type := {
  Xmin : float64; Xmax : float64; Ymin : float64; Ymax : float64;
  Latmin : float64; Latmax : float64; Longmin : float64; Longmax : float64
}.

Record Config : Type := {
  maptype : string;
  color : string;
  shapesize : float64
}.

(** Modelled from the spec: the geometry records of package go-shp, which
    the program imports and which is not part of this repository.  A point
    is a geographic (X, Y) pair; a polyline or polygon has an ordered
    sequence of integer part-start offsets [Parts] into its flat point
    sequence [Points], with the counts [NumParts] and [NumPoints] (the
    fields the program reads; the counts and offsets are int32).  The
    bounding box of a record is never read and is left out. *)
Module shp.

Record Point : Type := { X : float64; Y : float64 }.

Record PolyLine : Type := {
  NumParts : Z;
  NumPoints : Z;
  Parts : list Z;
  Points : list Point
}.

Definition Polygon : Type := PolyLine.

Record MultiPoint : Type := {
  MNumPoints : Z;
  MPoints : list Point
}.

End shp.

(** int32 arithmetic wraps around. *)
Definition wrap32 (z : Z) : Z := (z + 2 ^ 31) mod 2 ^ 32 - 2 ^ 31.

(** A table under which no rune beyond U+00FF is printable; it serves the
    examples, whose styles are plain ASCII and never reach the table. *)
Definition no_wide_rune : Fmt.PrintTable := fun _ => false.

Section Program.

(** Everything below holds for whatever the Unicode table of strconv is. *)
Context {unicode : Fmt.PrintTable}.

(** ** The format constants *)

Import Fmt.

Definition linefmt (x1 y1 x2 y2 : float64) (color opacity : string)
  (sp : float64) : string :=
  "<line xp1=" ++ DQ ++ f 7 x1 ++ DQ ++ " yp1=" ++ DQ ++ f 7 y1 ++ DQ
  ++ " xp2=" ++ DQ ++ f 7 x2 ++ DQ ++ " yp2=" ++ DQ ++ f 7 y2 ++ DQ
  ++ " color=" ++ q color ++ " opacity=" ++ q opacity
  ++ " sp=" ++ DQ ++ f 3 sp ++ DQ ++ "/>" ++ LF.

Definition dotfmt (xp yp : float64) (color opacity : string) (wp : float64)
  : string :=
  "<ellipse xp=" ++ DQ ++ f 7 xp ++ DQ ++ " yp=" ++ DQ ++ f 7 yp ++ DQ
  ++ " hr=" ++ DQ ++ "100" ++ DQ ++ "color=" ++ q color
  ++ " opacity=" ++ q opacity
  ++ " wp=" ++ DQ ++ f 3 wp ++ DQ ++ "/>" ++ LF.

(** ** The emitters *)

(** deckpolygon makes deck markup for a polygon given x, y coordinates
    slices. *)
Definition deckpolygon (x y : list float64) (color : string) : IO.t unit :=
  let nc := len x in
  if (nc <? 3) || negb (nc =? len y) then IO.ret tt
  else
    let '(fill, op) := colorop color in
    let end_ := nc - 1 in
    x0 <- IO.index x 0 ;;
    IO.Fprintf ("<polygon color=" ++ q fill ++ " opacity=" ++ q op
                ++ " xc=" ++ DQ ++ f 5 x0) ;;
    IO.for_lt 1 nc (fun i =>
      xi <- IO.index x i ;; IO.Fprintf (" " ++ f 5 xi)) ;;
    xe <- IO.index x end_ ;;
    IO.Fprintf (" " ++ f 5 xe ++ DQ ++ " ") ;;
    y0 <- IO.index y 0 ;;
    IO.Fprintf ("yc=" ++ DQ ++ f 5 y0) ;;
    IO.for_lt 1 nc (fun i =>
      yi <- IO.index y i ;; IO.Fprintf (" " ++ f 5 yi)) ;;
    ye <- IO.index y end_ ;;
    IO.Fprintf (" " ++ f 5 ye ++ DQ ++ "/>" ++ LF).

(** deckdot makes a series of circles in deck markup from a set of (x,y)
    coordinates. *)
Definition deckdot (x y : list float64) (color : string) (size : float64)
  : IO.t unit :=
  let '(fill, op) := colorop color in
  IO.for_lt 0 (len x) (fun i =>
    xi <- IO.index x i ;;
    yi <- IO.index y i ;;
    IO.Fprintf (dotfmt xi yi fill op size)).

(** deckpolyline makes a series of lines in deck markup from a set of
    (x,y) coordinates. *)
Definition deckpolyline (x y : list float64) (color : string)
  (size : float64) : IO.t unit :=
  let '(fill, op) := colorop color in
  let lx := len x in
  IO.for_lt 0 (lx - 1) (fun i =>
    xi <- IO.index x i ;;
    yi <- IO.index y i ;;
    xj <- IO.index x (i + 1) ;;
    yj <- IO.index y (i + 1) ;;
    IO.Fprintf (linefmt xi yi xj yj fill op size)) ;;
  x0 <- IO.index x 0 ;;
  y0 <- IO.index y 0 ;;
  xl <- IO.index x (lx - 1) ;;
  yl <- IO.index y (lx - 1) ;;
  IO.Fprintf (linefmt x0 y0 xl yl fill op size).

(** ** mapshape *)

Definition keyword_in (shape : string) (keys : list string) : bool :=
  existsb (String.eqb shape) keys.

(** mapshape writes markup to the destination according to the specified
    shape. *)
Definition mapshape (x y : list float64) (shape color : string)
  (size : float64) : IO.t unit :=
  if keyword_in shape ["p"; "poly"; "region"; "polygon"] then
    deckpolygon x y color
  else if keyword_in shape ["l"; "line"; "border"] then
    deckpolyline x y color size
  else if keyword_in shape ["d"; "dot"; "circle"] then
    deckdot x y color size
  else IO.ret tt.

(** ** The adapters *)

(** The inner loop: for j := lo; j < hi; j++, appending the mapped
    coordinates of Points[j] to x and y.  j stays below an int32 bound,
    so j++ never wraps. *)
Definition mapped_range (points : list shp.Point) (g : Geometry)
  (lo hi : Z) : IO.t (list float64 * list float64) :=
  IO.fold_lt lo hi ([], []) (fun j xy =>
    let '(x, y) := xy in
    px <- IO.index points j ;;
    py <- IO.index points j ;;
    IO.ret
      ((x ++ [vmap (shp.X px) (Longmin g) (Longmax g) (Xmin g) (Xmax g)])%list,
       (y ++ [vmap (shp.Y py) (Latmin g) (Latmax g) (Ymin g) (Ymax g)])%list)).

Section Adapters.

(** The callee of the polygon and polyline adapters.  The program calls
    [mapshape]; the bodies are written over the callee so that its
    invocations can be observed, and instantiated with [mapshape] below. *)
Variable dispatch :
  list float64 -> list float64 -> string -> string -> float64 -> IO.t unit.

(** PolygonCoords converts a set of coordinates and makes polygons. *)
Definition PolygonCoords_with (poly : shp.Polygon) (g : Geometry)
  (c : Config) : IO.t unit :=
  let last := wrap32 (shp.NumParts poly - 1) in
  IO.for_lt 0 last (fun i =>
    lo <- IO.index (shp.Parts poly) i ;;
    hi <- IO.index (shp.Parts poly) (i + 1) ;;
    xy <- mapped_range (shp.Points poly) g lo hi ;;
    dispatch (fst xy) (snd xy) (maptype c) (color c) (shapesize c)) ;;
  lo <- IO.index (shp.Parts poly) last ;;
  xy <- mapped_range (shp.Points poly) g lo (shp.NumPoints poly) ;;
  dispatch (fst xy) (snd xy) (maptype c) (color c) (shapesize c).

(** PolylineCoords converts a set of coordinates and makes polylines. *)
Definition PolylineCoords_with (poly : shp.PolyLine) (g : Geometry)
  (c : Config) : IO.t unit :=
  let last := wrap32 (shp.NumParts poly - 1) in
  IO.for_lt 0 last (fun i =>
    lo <- IO.index (shp.Parts poly) i ;;
    hi <- IO.index (shp.Parts poly) (i + 1) ;;
    xy <- mapped_range (shp.Points poly) g lo hi ;;
    dispatch (fst xy) (snd xy) (maptype c) (color c) (shapesize c)) ;;
  lo <- IO.index (shp.Parts poly) last ;;
  xy <- mapped_range (shp.Points poly) g lo (shp.NumPoints poly) ;;
  dispatch (fst xy) (snd xy) (maptype c) (color c) (shapesize c).

End Adapters.

Definition PolygonCoords : shp.Polygon -> Geometry -> Config -> IO.t unit :=
  PolygonCoords_with mapshape.

Definition PolylineCoords : shp.PolyLine -> Geometry -> Config -> IO.t unit :=
  PolylineCoords_with mapshape.

(** MultipointCoords converts a set of coordinates and makes circles for
    each coordinate. *)
Definition MultipointCoords (mp : shp.MultiPoint) (g : Geometry) (c : Config)
  : IO.t unit :=
  xy <- mapped_range (shp.MPoints mp) g 0 (shp.MNumPoints mp) ;;
  mapshape (fst xy) (snd xy) "dot" (color c) (shapesize c).

(** PointCoords places a circle at a coordinate. *)
Definition PointCoords (p : shp.Point) (g : Geometry) (c : Config)
  : IO.t unit :=
  let x := vmap (shp.X p) (Longmin g) (Longmax g) (Xmin g) (Xmax g) in
  let y := vmap (shp.Y p) (Latmin g) (Latmax g) (Ymin g) (Ymax g) in
  let '(fill, op) := colorop (color c) in
  IO.Fprintf (dotfmt x y fill op (shapesize c)).

(** * Vocabulary of the properties *)

(** [occurs c s]: the byte [c] is somewhere in [s]. *)
Fixpoint occurs (c : ascii) (s : string) : bool :=
  match s with
  | EmptyString => false
  | String a rest => Ascii.eqb a c || occurs c rest
  end.

(** The texts of [l] one after the other. *)
Fixpoint join (l : list string) : string :=
  match l with
  | [] => ""
  | s :: rest => s ++ join rest
  end.

(** The three synonym classes of shape keywords. *)
Definition polygon_keywords : list string := ["p"; "poly"; "region"; "polygon"].
Definition line_keywords : list string := ["l"; "line"; "border"].
Definition dot_keywords : list string := ["d"; "dot"; "circle"].

(** Two keywords of one synonym class. *)
Definition synonyms (k k' : string) : Prop :=
  (In k polygon_keywords /\ In k' polygon_keywords)
  \/ (In k line_keywords /\ In k' line_keywords)
  \/ (In k dot_keywords /\ In k' dot_keywords).

(** The default of a list lookup; never reached within bounds. *)
Definition nofloat : float64 := S754_zero false.

(** The line element from point [i] to point [j] of the coordinates. *)
Definition segment (x y : list float64) (i j : nat) (fill op : string)
  (size : float64) : string :=
  linefmt (nth i x nofloat) (nth i y nofloat)
          (nth j x nofloat) (nth j y nofloat) fill op size.

(** The lines of a chain, then the line from the first to the last point. *)
Definition loop_lines (x y : list float64) (fill op : string)
  (size : float64) : list string :=
  (map (fun i => segment x y i (S i) fill op size)
       (seq 0 (List.length x - 1))
   ++ [segment x y 0 (List.length x - 1) fill op size])%list.

(** A text of printable ASCII characters other than the double quote and
    the backslash: the color names and opacities of ordinary use. *)
Fixpoint plain (s : string) : bool :=
  match s with
  | EmptyString => true
  | String c rest =>
      ((32 <=? N_of_ascii c) && (N_of_ascii c <=? 126)
       && negb (N_of_ascii c =? 34) && negb (N_of_ascii c =? 92))%N
      && plain rest
  end.

(** The line element of the output format as the specification gives it,
    [<line xp1="x1" yp1="y1" xp2="x2" yp2="y2" color="name" opacity="op"
    sp="size"/>] on a line of its own, from the texts of its seven
    values. *)
Definition line_element (x1 y1 x2 y2 name op size : string) : string :=
  "<line xp1=" ++ DQ ++ x1 ++ DQ ++ " yp1=" ++ DQ ++ y1 ++ DQ
  ++ " xp2=" ++ DQ ++ x2 ++ DQ ++ " yp2=" ++ DQ ++ y2 ++ DQ
  ++ " color=" ++ DQ ++ name ++ DQ ++ " opacity=" ++ DQ ++ op ++ DQ
  ++ " sp=" ++ DQ ++ size ++ DQ ++ "/>" ++ LF.

(** A vertex list as written inside [xc] or [yc]: the first value alone,
    every later value after a space. *)
Definition vertex_list (l : list float64) : string :=
  f 5 (hd nofloat l) ++ join (map (fun v => " " ++ f 5 v) (tl l)).

(** The points whose index [j] satisfies [lo <= j < hi]. *)
Definition points_between (points : list shp.Point) (lo hi : Z)
  : list shp.Point :=
  firstn (Z.to_nat (hi - lo)) (skipn (Z.to_nat lo) points).

(** A point's longitude and latitude mapped to the screen. *)
Definition mapX (g : Geometry) (p : shp.Point) : float64 :=
  vmap (shp.X p) (Longmin g) (Longmax g) (Xmin g) (Xmax g).

Definition mapY (g : Geometry) (p : shp.Point) : float64 :=
  vmap (shp.Y p) (Latmin g) (Latmax g) (Ymin g) (Ymax g).

(** The two parallel coordinate sequences of a sequence of points. *)
Definition projected (g : Geometry) (ps : list shp.Point)
  : list float64 * list float64 :=
  (map (mapX g) ps, map (mapY g) ps).

(** Part [i] starts at its offset and ends at the next offset, the last
    part at the end of the point sequence. *)
Definition part_start (poly : shp.PolyLine) (i : nat) : Z :=
  nth i (shp.Parts poly) 0.

Definition part_end (poly : shp.PolyLine) (i : nat) : Z :=
  if Z.of_nat (S i) <? shp.NumParts poly
  then nth (S i) (shp.Parts poly) 0
  else shp.NumPoints poly.

(** The mapped coordinates of part [i], and of all parts in order. *)
Definition part (poly : shp.PolyLine) (g : Geometry) (i : nat)
  : list float64 * list float64 :=
  projected g
    (points_between (shp.Points poly) (part_start poly i) (part_end poly i)).

Definition parts_of (poly : shp.PolyLine) (g : Geometry)
  : list (list float64 * list float64) :=
  map (part poly g) (seq 0 (Z.to_nat (shp.NumParts poly))).

(** A record as the shapefile reader delivers it: the counts are the
    lengths of the two sequences, and every offset points into the point
    sequence (or at its end). *)
Record well_formed (poly : shp.PolyLine) : Prop := {
  wf_parts : len (shp.Parts poly) = shp.NumParts poly;
  wf_points : len (shp.Points poly) = shp.NumPoints poly;
  wf_offsets :
    Forall (fun o => 0 <= o <= shp.NumPoints poly) (shp.Parts poly);
  wf_int32 : shp.NumParts poly < 2 ^ 31
}.

(** The dot elements of the first [n] coordinate pairs. *)
Definition dot_elements (x y : list float64) (color : string)
  (size : float64) (n : nat) : list string :=
  map (fun i => dotfmt (nth i x nofloat) (nth i y nofloat)
                       (fst (colorop color)) (snd (colorop color)) size)
      (seq 0 n).

(** The polygon element written for coordinates that pass the guard of
    [deckpolygon]: each attribute holds the given values and then the last
    one again. *)
Definition polygon_element (x y : list float64) (color : string) : string :=
  "<polygon color=" ++ q (fst (colorop color))
  ++ " opacity=" ++ q (snd (colorop color))
  ++ " xc=" ++ DQ ++ vertex_list (x ++ [last x nofloat]) ++ DQ
  ++ " yc=" ++ DQ ++ vertex_list (y ++ [last y nofloat]) ++ DQ
  ++ "/>" ++ LF.

(** The guard of [deckpolygon], and all that a call writes. *)
Definition too_short_or_uneven (x y : list float64) : bool :=
  (len x <? 3) || negb (len x =? len y).

Definition polygon_output (x y : list float64) (color : string) : string :=
  if too_short_or_uneven x y then "" else polygon_element x y color.

(** The dot element of one geographic point. *)
Definition point_dot (g : Geometry) (color : string) (size : float64)
  (p : shp.Point) : string :=
  dotfmt (mapX g p) (mapY g p) (fst (colorop color)) (snd (colorop color))
         size.

(** A part without points. *)
Definition empty_part (xy : list float64 * list float64) : bool :=
  match fst xy with
  | [] => true
  | _ :: _ => false
  end.

(** Whether a sequence is empty. *)
Definition is_nil {A} (l : list A) : bool :=
  match l with
  | [] => true
  | _ :: _ => false
  end.

(** The number of line feeds in a text. *)
Fixpoint count_lf (s : string) : nat :=
  match s with
  | EmptyString => 0
  | String c rest =>
      ((if Ascii.eqb c "010"%char then 1 else 0) + count_lf rest)%nat
  end.

(** * Properties *)

(** ** Strings *)

Lemma append_assoc (a b c : string) : (a ++ b) ++ c = a ++ (b ++ c).
Proof.
  induction a as [|ch a IH]; simpl; [reflexivity | now rewrite IH].
Qed.

Lemma append_nil_r (a : string) : a ++ "" = a.
Proof.
  induction a as [|ch a IH]; simpl; [reflexivity | now rewrite IH].
Qed.

Lemma length_append (a b : string) :
  String.length (a ++ b) = (String.length a + String.length b)%nat.
Proof.
  induction a as [|ch a IH]; simpl; [reflexivity | now rewrite IH].
Qed.

Lemma substring_all (s : string) : substring 0 (String.length s) s = s.
Proof.
  induction s as [|ch s IH]; simpl; [reflexivity | now rewrite IH].
Qed.

Lemma substring_prefix (a b : string) :
  substring 0 (String.length a) (a ++ b) = a.
Proof.
  induction a as [|ch a IH]; simpl.
  - destruct b; reflexivity.
  - now rewrite IH.
Qed.

Lemma substring_suffix (a b : string) :
  substring (String.length a) (String.length b) (a ++ b) = b.
Proof.
  induction a as [|ch a IH]; simpl; [apply substring_all | exact IH].
Qed.

Lemma IndexByte_absent (s : string) (c : ascii) :
  occurs c s = false -> Strings.IndexByte s c = -1.
Proof.
  induction s as [|a s IH]; simpl; [reflexivity |].
  intros H. apply orb_false_iff in H as [Ha Hs].
  rewrite Ha, (IH Hs). reflexivity.
Qed.

Lemma IndexByte_first (pre post : string) (c : ascii) :
  occurs c pre = false ->
  Strings.IndexByte (pre ++ String c post) c = Strings.len pre.
Proof.
  unfold Strings.len.
  induction pre as [|a pre IH]; simpl.
  - intros _. now rewrite Ascii.eqb_refl.
  - intros H. apply orb_false_iff in H as [Ha Hs].
    rewrite Ha, (IH Hs).
    destruct (Z.of_nat (String.length pre) <? 0) eqn:E.
    + apply Z.ltb_lt in E. lia.
    + lia.
Qed.

(** ** colorop *)

Lemma colorop_no_separator (s : string) :
  occurs ":" s = false -> colorop s = (s, "100").
Proof.
  intros H. unfold colorop. now rewrite (IndexByte_absent _ _ H).
Qed.

Lemma colorop_leading_separator (post : string) :
  colorop (":" ++ post) = (":" ++ post, "100").
Proof. reflexivity. Qed.

Lemma colorop_inner_separator (pre post : string) :
  occurs ":" pre = false -> pre <> "" ->
  colorop (pre ++ ":" ++ post) = (pre, post).
Proof.
  intros Hpre Hne. unfold colorop.
  change (pre ++ ":" ++ post) with (pre ++ String ":" post).
  rewrite (IndexByte_first _ _ _ Hpre).
  unfold Strings.len, Strings.slice.
  rewrite length_append. simpl String.length.
  assert (0 < String.length pre)%nat
    by (destruct pre; [congruence | simpl; lia]).
  replace (0 <? Z.of_nat (String.length pre)) with true
    by (symmetry; apply Z.ltb_lt; lia).
  replace (Z.of_nat (String.length pre)
           <? Z.of_nat (String.length pre + S (String.length post)))
    with true by (symmetry; apply Z.ltb_lt; lia).
  simpl andb. cbv iota.
  rewrite Z.sub_0_r, Nat2Z.id. change (Z.to_nat 0) with 0%nat.
  rewrite substring_prefix.
  replace (Z.to_nat (Z.of_nat (String.length pre) + 1))
    with (String.length (pre ++ ":")) by (rewrite length_append; simpl; lia).
  replace (Z.to_nat _) with (String.length post) by lia.
  replace (pre ++ String ":" post) with ((pre ++ ":") ++ post)
    by (now rewrite append_assoc).
  now rewrite substring_suffix.
Qed.

Lemma first_separator (c : ascii) (s : string) :
  occurs c s = false \/
  exists pre post, s = pre ++ String c post /\ occurs c pre = false.
Proof.
  induction s as [|a s IH]; simpl; [now left |].
  destruct (Ascii.eqb_spec a c) as [-> | Hne].
  - right. exists "", s. now split.
  - destruct IH as [IH | (pre & post & -> & Hpre)]; [now left | right].
    exists (String a pre), post. split; [reflexivity |].
    simpl. rewrite Hpre. now destruct (Ascii.eqb_spec a c).
Qed.

(** C7 (as stated it fails).  The style [":a:b"] has a separator at
    offset 2, strictly between the start and the end of the string, and yet
    it is not split there into the text before and the text after: only the
    first separator of a string is looked at, and here it sits at offset
    0. *)
Lemma colorop_later_separator_not_split :
  get 2 ":a:b" = Some ":"%char
  /\ (0 < 2 < String.length ":a:b" - 1)%nat
  /\ colorop ":a:b" <> (substring 0 2 ":a:b", substring 3 1 ":a:b").
Proof. repeat split; [simpl; lia | simpl; lia | discriminate]. Qed.

(** C7 (amended).  [colorop] looks at the first [":"] of the string only.
    When that first separator sits strictly after the start of the string
    (it is then always before its end: [0 < ci < len]), the color is the
    text before it and the opacity the text after it, which is empty for a
    separator in last position and holds the later separators, if any;
    otherwise, that is when the string has no separator or begins with one,
    the whole string is the color and the opacity is ["100"], whatever
    separators come later.  Every string is in one of these cases.  In
    particular ["red"] gives [("red", "100")], ["red:50"] gives
    [("red", "50")], and [":a:b"] is returned whole. *)
Theorem colorop_splits_at_separator (s : string) :
  (forall pre post,
      s = pre ++ ":" ++ post -> occurs ":" pre = false -> pre <> "" ->
      colorop s = (pre, post))
  /\ (occurs ":" s = false \/ (exists post, s = ":" ++ post) ->
      colorop s = (s, "100"))
  /\ (occurs ":" s = false \/
      exists pre post, s = pre ++ ":" ++ post /\ occurs ":" pre = false)
  /\ colorop "red" = ("red", "100")
  /\ colorop "red:50" = ("red", "50")
  /\ colorop ":a:b" = (":a:b", "100")
  /\ colorop "a:b:c" = ("a", "b:c")
  /\ colorop "red:" = ("red", EmptyString).
Proof.
  repeat split.
  - intros pre post -> Hpre Hne. now apply colorop_inner_separator.
  - intros [H | [post ->]].
    + now apply colorop_no_separator.
    + apply colorop_leading_separator.
  - apply first_separator.
Qed.

(** C8 (as stated it fails).  A style whose first character is the
    separator is not split into an empty color and the rest. *)
Lemma colorop_leading_separator_not_split :
  colorop ":50" <> ("", "50").
Proof. discriminate. Qed.

(** C8 (amended).  On [":50"] the separator is at offset 0, the guard
    [ci > 0] fails, and [colorop] returns the whole string as the color
    with the default opacity ["100"]. *)
Theorem colorop_leading_separator_kept :
  colorop ":50" = (":50", "100").
Proof. reflexivity. Qed.

(** ** Line feeds in the formatted texts *)

Lemma count_lf_app (a b : string) :
  count_lf (a ++ b) = (count_lf a + count_lf b)%nat.
Proof.
  induction a as [|c a IH]; [reflexivity |].
  cbn [append count_lf]. rewrite IH. lia.
Qed.

Lemma count_lf_lowerhex (n : N) : count_lf (lowerhex n) = 0%nat.
Proof.
  unfold lowerhex. destruct n as [|p]; [reflexivity |].
  do 4 (try (destruct p as [p | p |]; try reflexivity)).
Qed.

Lemma count_lf_hex2 (n : N) : count_lf (hex2 n) = 0%nat.
Proof. unfold hex2. now rewrite count_lf_app, !count_lf_lowerhex. Qed.

Lemma count_lf_hex4 (n : N) : count_lf (hex4 n) = 0%nat.
Proof. unfold hex4. now rewrite count_lf_app, !count_lf_hex2. Qed.

Lemma count_lf_hex8 (n : N) : count_lf (hex8 n) = 0%nat.
Proof. unfold hex8. now rewrite count_lf_app, !count_lf_hex4. Qed.

Lemma count_lf_quote_byte (c : ascii) : count_lf (quote_byte c) = 0%nat.
Proof.
  destruct c as [[] [] [] [] [] [] [] []]; reflexivity.
Qed.

Lemma high_byte_is_no_lf (c : ascii) :
  (128 <=? N_of_ascii c)%N = true -> Ascii.eqb c "010"%char = false.
Proof.
  destruct c as [[] [] [] [] [] [] [] []]; intros H; try reflexivity;
    discriminate H.
Qed.

Lemma within_high (lo hi : N) (c : ascii) :
  within lo hi c = true -> (128 <=? lo)%N = true ->
  Ascii.eqb c "010"%char = false.
Proof.
  unfold within. intros H Hlo. apply andb_true_iff in H as [H _].
  apply high_byte_is_no_lf. apply N.leb_le in Hlo, H. apply N.leb_le. lia.
Qed.

Lemma count_lf_decoded (b0 : ascii) (rest : string) (r : N) (width : nat) :
  (N_of_ascii b0 <? 128)%N = false ->
  decode (String b0 rest) = Some (r, width) ->
  count_lf (substring 0 width (String b0 rest)) = 0%nat.
Proof.
  intros H0 Hd.
  assert (E0 : Ascii.eqb b0 "010"%char = false)
    by (apply high_byte_is_no_lf; apply N.ltb_ge in H0; now apply N.leb_le).
  unfold decode in Hd.
  destruct (N_of_ascii b0 <? 194)%N; [discriminate |].
  destruct (N_of_ascii b0 <? 224)%N.
  { destruct rest as [|b1 rest]; [discriminate |].
    destruct (within 128 191 b1) eqn:W1; [| discriminate].
    injection Hd as _ <-. cbn [substring count_lf].
    rewrite E0, (within_high _ _ _ W1 eq_refl).
    now destruct rest. }
  destruct (N_of_ascii b0 <? 240)%N.
  { destruct rest as [|b1 [|b2 rest]]; try discriminate.
    destruct (within _ _ b1) eqn:W1; [| discriminate].
    destruct (within 128 191 b2) eqn:W2; [| discriminate].
    injection Hd as _ <-. cbn [substring count_lf].
    rewrite E0, (within_high _ _ _ W2 eq_refl).
    rewrite (within_high _ _ _ W1)
      by (now destruct (N_of_ascii b0 =? 224)%N).
    now destruct rest. }
  destruct (N_of_ascii b0 <? 245)%N; [| discriminate].
  destruct rest as [|b1 [|b2 [|b3 rest]]]; try discriminate.
  destruct (within _ _ b1) eqn:W1; [| discriminate].
  destruct (within 128 191 b2) eqn:W2; [| discriminate].
  destruct (within 128 191 b3) eqn:W3; [| discriminate].
  injection Hd as _ <-. cbn [substring count_lf].
  rewrite E0, (within_high _ _ _ W2 eq_refl), (within_high _ _ _ W3 eq_refl).
  rewrite (within_high _ _ _ W1)
    by (now destruct (N_of_ascii b0 =? 240)%N).
  now destruct rest.
Qed.

Lemma count_lf_escape_rune (r : N) : count_lf (escape_rune r) = 0%nat.
Proof.
  unfold escape_rune. destruct (r <? 65536)%N;
    now rewrite !count_lf_app, ?count_lf_hex4, ?count_lf_hex8.
Qed.

Lemma count_lf_quote_runes (s : string) :
  forall skip, count_lf (quote_runes s skip) = 0%nat.
Proof.
  induction s as [|c s IH]; intros skip; [reflexivity |].
  cbn [quote_runes]. destruct skip as [|k]; [| apply IH].
  destruct (N_of_ascii c <? 128)%N eqn:Hc.
  - now rewrite count_lf_app, count_lf_quote_byte, IH.
  - destruct (decode (String c s)) as [[r width] |] eqn:Hd.
    + rewrite count_lf_app, IH.
      destruct (IsPrint r).
      * now rewrite (count_lf_decoded _ _ _ _ Hc Hd).
      * now rewrite count_lf_escape_rune.
    + now rewrite !count_lf_app, count_lf_hex2, IH.
Qed.

Lemma count_lf_q (s : string) : count_lf (q s) = 0%nat.
Proof.
  unfold q. now rewrite !count_lf_app, count_lf_quote_runes.
Qed.

Lemma count_lf_digits (d : Decimal.uint) :
  count_lf (NilEmpty.string_of_uint d) = 0%nat.
Proof.
  induction d; cbn [NilEmpty.string_of_uint count_lf]; try reflexivity;
    rewrite IHd; reflexivity.
Qed.

Lemma count_lf_decimal (n : Z) : count_lf (decimal n) = 0%nat.
Proof.
  unfold decimal, NilZero.string_of_uint.
  destruct (N.to_uint (Z.to_N n)) eqn:E; try reflexivity;
    rewrite <- E; apply count_lf_digits.
Qed.

Lemma count_lf_padded (width : nat) (n : Z) :
  count_lf (padded width n) = 0%nat.
Proof.
  unfold padded.
  pose proof (count_lf_decimal (10 ^ Z.of_nat width + n)) as H.
  destruct (decimal (10 ^ Z.of_nat width + n)) as [|c rest];
    [reflexivity |].
  cbn [count_lf] in H. lia.
Qed.

Lemma count_lf_f (digits : nat) (v : float64) : count_lf (f digits v) = 0%nat.
Proof.
  assert (H : forall n, count_lf (fixed digits n) = 0%nat).
  { intros n. unfold fixed. destruct digits as [|d].
    - apply count_lf_decimal.
    - now rewrite !count_lf_app, count_lf_decimal, count_lf_padded. }
  destruct v as [[|] | [|] | | [|] m e]; cbn [f];
    rewrite ?count_lf_app, ?H; reflexivity.
Qed.

Lemma count_lf_vertex_list (l : list float64) :
  count_lf (vertex_list l) = 0%nat.
Proof.
  assert (H : forall t,
             count_lf (join (map (fun v => " " ++ f 5 v) t)) = 0%nat).
  { induction t as [|v t IH]; [reflexivity |].
    cbn [map join]. rewrite !count_lf_app, count_lf_f, IH. reflexivity. }
  unfold vertex_list. now rewrite count_lf_app, count_lf_f, H.
Qed.

Lemma quote_runes_plain (s : string) :
  plain s = true -> quote_runes s 0 = s.
Proof.
  induction s as [|c s IH]; [reflexivity |].
  cbn [plain quote_runes]. intros H.
  apply andb_true_iff in H as [Hc Hs].
  apply andb_true_iff in Hc as [Hc H92].
  apply andb_true_iff in Hc as [Hc H34].
  pose proof Hc as Hr. apply andb_true_iff in Hr as [_ Hhi].
  apply N.leb_le in Hhi.
  replace (N_of_ascii c <? 128)%N with true
    by (symmetry; apply N.ltb_lt; lia).
  unfold quote_byte. cbv zeta.
  apply negb_true_iff in H34, H92. rewrite H34, H92, Hc.
  rewrite (IH Hs). reflexivity.
Qed.

Lemma q_plain (s : string) : plain s = true -> q s = DQ ++ s ++ DQ.
Proof. intros H. unfold q. now rewrite (quote_runes_plain _ H). Qed.

Lemma count_lf_linefmt (a b a' b' : float64) (fill op : string)
  (size : float64) :
  count_lf (linefmt a b a' b' fill op size) = 1%nat.
Proof.
  unfold linefmt. now rewrite !count_lf_app, !count_lf_f, !count_lf_q.
Qed.

Lemma count_lf_join (l : list string) (k : nat) :
  (forall s, In s l -> count_lf s = k) ->
  count_lf (join l) = (List.length l * k)%nat.
Proof.
  induction l as [|s l IH]; intros H; [reflexivity |].
  cbn [join List.length]. rewrite count_lf_app, (H s (or_introl eq_refl)).
  rewrite IH by (intros t Ht; apply H; now right). lia.
Qed.

(** ** Loops that only write *)

Lemma join_app (a b : list string) : join (a ++ b) = join a ++ join b.
Proof.
  induction a as [|s a IH]; simpl; [reflexivity |].
  now rewrite IH, append_assoc.
Qed.

Lemma index_in_range {A} (l : list A) (i : nat) (d : A) (w : string) :
  (i < List.length l)%nat -> IO.index l (Z.of_nat i) w = IO.Ok (nth i l d) w.
Proof.
  intros H. unfold IO.index.
  replace (Z.of_nat i <? 0) with false by (symmetry; apply Z.ltb_ge; lia).
  rewrite Nat2Z.id.
  destruct (nth_error l i) eqn:E.
  - now rewrite (nth_error_nth _ _ d E).
  - apply nth_error_None in E. lia.
Qed.

Lemma index_out_of_range {A} (l : list A) (i : Z) (w : string) :
  i < 0 \/ len l <= i -> IO.index l i w = IO.Panic w.
Proof.
  intros H. unfold IO.index, len in *.
  destruct (i <? 0) eqn:E; [reflexivity |].
  apply Z.ltb_ge in E.
  destruct (nth_error l (Z.to_nat i)) eqn:N; [| reflexivity].
  assert (Z.to_nat i < List.length l)%nat
    by (apply nth_error_Some; congruence).
  lia.
Qed.

Lemma rounds_writes (n : nat) :
  forall (i : Z) (body : Z -> IO.t unit) (g : nat -> string),
    (forall j w, (j < n)%nat ->
                 body (i + Z.of_nat j) w = IO.Ok tt (w ++ g j)) ->
    forall w, IO.rounds n i tt (fun k _ => body k) w
              = IO.Ok tt (w ++ join (map g (seq 0 n))).
Proof.
  induction n as [|n IH]; intros i body g Hbody w.
  - simpl. now rewrite append_nil_r.
  - cbn [IO.rounds]. unfold IO.bind at 1.
    specialize (Hbody 0%nat w ltac:(lia)) as H0.
    rewrite Z.add_0_r in H0. rewrite H0.
    rewrite (IH (i + 1) body (fun j => g (S j))).
    + cbn [seq map join]. rewrite <- seq_shift, map_map.
      now rewrite append_assoc.
    + intros j w' Hj. rewrite <- (Hbody (S j) w' ltac:(lia)).
      f_equal. lia.
Qed.

Lemma rounds_panics (n : nat) :
  forall (i : Z) (body : Z -> IO.t unit) (k : nat),
    (k < n)%nat ->
    (forall w, IO.panics (body (i + Z.of_nat k) w) = true) ->
    forall w, IO.panics (IO.rounds n i tt (fun k _ => body k) w) = true.
Proof.
  induction n as [|n IH]; intros i body k Hk Hbody w; [lia |].
  cbn [IO.rounds]. unfold IO.bind at 1.
  destruct (body i w) as [[] w' | w'] eqn:E; [| reflexivity].
  destruct k as [|k].
  - specialize (Hbody w). rewrite Z.add_0_r, E in Hbody. discriminate.
  - apply (IH (i + 1) body k ltac:(lia)).
    intros w0. rewrite <- (Hbody w0). do 2 f_equal. lia.
Qed.

Lemma bind_panics {A B} (m : IO.t A) (k : A -> IO.t B) (w : string) :
  IO.panics (m w) = true -> IO.panics (IO.bind m k w) = true.
Proof.
  unfold IO.bind. now destruct (m w).
Qed.

Lemma bind_ext {A B} (m m' : IO.t A) (k k' : A -> IO.t B) (w : string) :
  (forall w0, m w0 = m' w0) -> (forall a w0, k a w0 = k' a w0) ->
  IO.bind m k w = IO.bind m' k' w.
Proof.
  intros Hm Hk. unfold IO.bind. rewrite Hm.
  destruct (m' w); [apply Hk | reflexivity].
Qed.

(** ** deckpolygon on too few or unequal coordinates *)

(** C6.  With fewer than 3 abscissas, or with abscissas and ordinates of
    different lengths, [deckpolygon] returns without writing: the
    destination is unchanged and there is no panic. *)
Theorem deckpolygon_short_or_uneven
  (x y : list float64) (color : string) (w : string) :
  (List.length x < 3)%nat \/ List.length x <> List.length y ->
  deckpolygon x y color w = IO.Ok tt w.
Proof.
  intros H. unfold deckpolygon, len.
  destruct (Z.of_nat (List.length x) <? 3) eqn:E3; [reflexivity |].
  apply Z.ltb_ge in E3.
  destruct (Z.of_nat (List.length x) =? Z.of_nat (List.length y)) eqn:Eq.
  - apply Z.eqb_eq in Eq. lia.
  - reflexivity.
Qed.

(** ** mapshape *)

Lemma keyword_in_spec (shape : string) (keys : list string) :
  keyword_in shape keys = true <-> In shape keys.
Proof.
  unfold keyword_in. rewrite existsb_exists. split.
  - intros (k & Hin & Heq). apply String.eqb_eq in Heq. now subst.
  - intros Hin. exists shape. split; [exact Hin | apply String.eqb_refl].
Qed.

Lemma keyword_not_in (shape : string) (keys : list string) :
  ~ In shape keys -> keyword_in shape keys = false.
Proof.
  intros H. destruct (keyword_in shape keys) eqn:E; [| reflexivity].
  now apply keyword_in_spec in E.
Qed.

Ltac each_keyword H :=
  simpl in H;
  repeat (destruct H as [H | H]; [subst; try reflexivity |]);
  try contradiction.

Lemma mapshape_polygon x y k color size :
  In k polygon_keywords -> mapshape x y k color size = deckpolygon x y color.
Proof. intros H. each_keyword H. Qed.

Lemma mapshape_line x y k color size :
  In k line_keywords -> mapshape x y k color size = deckpolyline x y color size.
Proof. intros H. each_keyword H. Qed.

Lemma mapshape_dot x y k color size :
  In k dot_keywords -> mapshape x y k color size = deckdot x y color size.
Proof. intros H. each_keyword H. Qed.

(** C9.  On a keyword outside the ten recognised ones [mapshape] writes
    nothing and does not panic, whatever the coordinates and style; and two
    keywords of one synonym class (such as ["circle"] and ["dot"]) give the
    same result on the same coordinates, style and destination. *)
Theorem mapshape_unknown_keyword_and_synonyms
  (x y : list float64) (shape shape' color : string) (size : float64)
  (w : string) :
  (~ In shape (polygon_keywords ++ line_keywords ++ dot_keywords) ->
   mapshape x y shape color size w = IO.Ok tt w)
  /\ (synonyms shape shape' ->
      mapshape x y shape color size w = mapshape x y shape' color size w)
  /\ mapshape x y "circle" color size w = mapshape x y "dot" color size w.
Proof.
  repeat split.
  - intros H. unfold mapshape.
    rewrite !keyword_not_in; [reflexivity | | |];
      intros Hin; apply H; rewrite !in_app_iff; auto.
  - intros [[H H'] | [[H H'] | [H H']]].
    + now rewrite !mapshape_polygon.
    + now rewrite !mapshape_line.
    + now rewrite !mapshape_dot.
Qed.

(** ** deckpolyline *)

Lemma deckpolyline_writes (x y : list float64) (color : string)
  (size : float64) (w : string) :
  x <> [] -> (List.length x <= List.length y)%nat ->
  deckpolyline x y color size w
  = IO.Ok tt (w ++ join (loop_lines x y (fst (colorop color))
                                    (snd (colorop color)) size)).
Proof.
  intros Hne Hlen.
  assert (0 < List.length x)%nat
    by (destruct x; [congruence | simpl; lia]).
  unfold deckpolyline, loop_lines, len, IO.for_lt, IO.fold_lt.
  destruct (colorop color) as [fill op]. cbn [fst snd].
  unfold IO.bind at 1.
  rewrite (rounds_writes _ _ _
             (fun i => segment x y i (S i) fill op size)).
  - replace (Z.to_nat (Z.of_nat (List.length x) - 1 - 0))
      with (List.length x - 1)%nat by lia.
    unfold IO.bind.
    change 0 with (Z.of_nat 0).
    rewrite !(index_in_range _ 0 nofloat) by lia.
    replace (Z.of_nat (List.length x) - 1)
      with (Z.of_nat (List.length x - 1)) by lia.
    rewrite !(index_in_range _ _ nofloat) by lia.
    unfold IO.Fprintf. rewrite join_app. cbn [join].
    now rewrite append_nil_r, append_assoc.
  - intros j w' Hj. rewrite Z.add_0_l. unfold IO.bind.
    rewrite !(index_in_range _ j nofloat) by lia.
    replace (Z.of_nat j + 1) with (Z.of_nat (S j)) by lia.
    rewrite !(index_in_range _ (S j) nofloat) by lia.
    reflexivity.
Qed.

(** C3.  On coordinates of equal length [n >= 2], [deckpolyline] appends
    to the destination exactly [n] line elements and nothing else: the
    [n-1] segments joining each point [i] to the point [i+1], in input
    order, then one closing segment from the first point to the last.  The
    text of each element is given character by character (positions at 7
    decimal digits, color and opacity as the verb q quotes them, size at 3
    decimal digits, one line feed); the text appended holds [n] line feeds;
    when color and opacity are plain texts every element is the line
    element of the specification.  On [x = [0,1,2]], [y = [0,0,0]], color
    ["red"] and size 1 the text written is the three lines 0-1, 1-2 and
    0-2. *)
Theorem deckpolyline_closed_loop (x y : list float64) (color : string)
  (size : float64) (w : string) :
  List.length x = List.length y -> (2 <= List.length x)%nat ->
  let n := List.length x in
  let fill := fst (colorop color) in
  let op := snd (colorop color) in
  let at7 := fun (l : list float64) (i : nat) => f 7 (nth i l nofloat) in
  let line := fun i j : nat =>
    "<line xp1=" ++ DQ ++ at7 x i ++ DQ ++ " yp1=" ++ DQ ++ at7 y i ++ DQ
    ++ " xp2=" ++ DQ ++ at7 x j ++ DQ ++ " yp2=" ++ DQ ++ at7 y j ++ DQ
    ++ " color=" ++ q fill ++ " opacity=" ++ q op
    ++ " sp=" ++ DQ ++ f 3 size ++ DQ ++ "/>" ++ LF in
  let lines :=
    (map (fun i => line i (S i)) (seq 0 (n - 1)) ++ [line 0%nat (n - 1)%nat])%list
  in
  deckpolyline x y color size w = IO.Ok tt (w ++ join lines)
  /\ List.length lines = n
  /\ count_lf (join lines) = n
  /\ (plain fill = true -> plain op = true ->
      forall i j,
        line i j = line_element (at7 x i) (at7 y i) (at7 x j) (at7 y j)
                     fill op (f 3 size))
  /\ deckpolyline [F64.of_Z 0; F64.of_Z 1; F64.of_Z 2]
        [F64.of_Z 0; F64.of_Z 0; F64.of_Z 0] "red" (F64.of_Z 1) EmptyString
     = IO.Ok tt
         (("<line xp1=" ++ DQ ++ "0.0000000" ++ DQ ++ " yp1=" ++ DQ ++ "0.0000000" ++ DQ
          ++ " xp2=" ++ DQ ++ "1.0000000" ++ DQ ++ " yp2=" ++ DQ ++ "0.0000000" ++ DQ
          ++ " color=" ++ DQ ++ "red" ++ DQ ++ " opacity=" ++ DQ ++ "100" ++ DQ
          ++ " sp=" ++ DQ ++ "1.000" ++ DQ ++ "/>" ++ LF)
          ++ ("<line xp1=" ++ DQ ++ "1.0000000" ++ DQ ++ " yp1=" ++ DQ ++ "0.0000000" ++ DQ
          ++ " xp2=" ++ DQ ++ "2.0000000" ++ DQ ++ " yp2=" ++ DQ ++ "0.0000000" ++ DQ
          ++ " color=" ++ DQ ++ "red" ++ DQ ++ " opacity=" ++ DQ ++ "100" ++ DQ
          ++ " sp=" ++ DQ ++ "1.000" ++ DQ ++ "/>" ++ LF)
          ++ ("<line xp1=" ++ DQ ++ "0.0000000" ++ DQ ++ " yp1=" ++ DQ ++ "0.0000000" ++ DQ
          ++ " xp2=" ++ DQ ++ "2.0000000" ++ DQ ++ " yp2=" ++ DQ ++ "0.0000000" ++ DQ
          ++ " color=" ++ DQ ++ "red" ++ DQ ++ " opacity=" ++ DQ ++ "100" ++ DQ
          ++ " sp=" ++ DQ ++ "1.000" ++ DQ ++ "/>" ++ LF)).
Proof.
  intros Hlen Hn n fill op at7 line lines.
  assert (Hlines : List.length lines = n).
  { unfold lines. rewrite length_app, length_map, length_seq.
    simpl. unfold n. lia. }
  split; [| split; [| split; [| split]]].
  - apply deckpolyline_writes; [| lia].
    destruct x; [simpl in Hn; lia | congruence].
  - exact Hlines.
  - rewrite (count_lf_join lines 1); [lia |].
    intros s Hs. unfold lines in Hs.
    apply in_app_or in Hs as [Hs | [<- | []]].
    + apply in_map_iff in Hs as (i & <- & _).
      apply (count_lf_linefmt (nth i x nofloat) (nth i y nofloat)
               (nth (S i) x nofloat) (nth (S i) y nofloat)).
    + apply (count_lf_linefmt (nth 0 x nofloat) (nth 0 y nofloat)
               (nth (n - 1) x nofloat) (nth (n - 1) y nofloat)).
  - intros Hf Ho i j. unfold line, line_element.
    rewrite (q_plain _ Hf), (q_plain _ Ho).
    now rewrite <- !append_assoc.
  - vm_compute. reflexivity.
Qed.

Lemma deckpolyline_empty (y : list float64) (color : string)
  (size : float64) (w : string) :
  deckpolyline [] y color size w = IO.Panic w.
Proof.
  unfold deckpolyline. now destruct (colorop color).
Qed.

Lemma deckpolyline_short_ordinates (x y : list float64) (color : string)
  (size : float64) (w : string) :
  (List.length y < List.length x)%nat ->
  IO.panics (deckpolyline x y color size w) = true.
Proof.
  intros Hlen. unfold deckpolyline.
  destruct (colorop color) as [fill op].
  destruct (Nat.le_gt_cases (List.length x) 1) as [H1 | H2].
  - (* one abscissa, no ordinate: the closing segment reads y[0] *)
    destruct x as [|a [|b x]]; simpl in *; [lia | | lia].
    destruct y; simpl in *; [reflexivity | lia].
  - (* the chain reads y[len y] at the latest *)
    apply bind_panics. unfold IO.for_lt, IO.fold_lt, len.
    apply (rounds_panics _ _ _ (List.length y - 1)%nat); [lia |].
    intros w'. rewrite Z.add_0_l. unfold IO.bind.
    rewrite (index_in_range x _ nofloat) by lia.
    destruct (List.length y) as [|ly] eqn:Ey.
    + rewrite (index_out_of_range y); [reflexivity |].
      unfold len. rewrite Ey. simpl. lia.
    + rewrite (index_in_range y _ nofloat) by lia.
      replace (Z.of_nat (S ly - 1) + 1) with (Z.of_nat (S ly)) by lia.
      rewrite (index_in_range x _ nofloat) by lia.
      rewrite (index_out_of_range y); [reflexivity |].
      unfold len. rewrite Ey. lia.
Qed.

(** C10.  [deckpolyline] checks no length.  On empty coordinates it goes
    straight to the closing segment, reads [x[0]] and panics (index out of
    range), where [deckdot] and [deckpolygon] return having written
    nothing.  Its index expressions are all in range exactly when [x] is
    not empty and [y] is at least as long as [x]. *)
Theorem deckpolyline_index_safety (x y : list float64) (color : string)
  (size : float64) (w : string) :
  deckpolyline [] [] color size w = IO.Panic w
  /\ deckdot [] [] color size w = IO.Ok tt w
  /\ deckpolygon [] [] color w = IO.Ok tt w
  /\ (IO.panics (deckpolyline x y color size w) = false
      <-> x <> [] /\ (List.length x <= List.length y)%nat).
Proof.
  split; [apply deckpolyline_empty |].
  split; [unfold deckdot; now destruct (colorop color) |].
  split; [reflexivity |].
  split.
  - intros Hok. split.
    + intros ->. now rewrite deckpolyline_empty in Hok.
    + destruct (Nat.le_gt_cases (List.length x) (List.length y)) as [H | H];
        [exact H |].
      now rewrite deckpolyline_short_ordinates in Hok.
  - intros [Hne Hlen]. now rewrite deckpolyline_writes.
Qed.

(** ** deckpolygon on a well-formed ring *)

Lemma map_nth_seq {A} (l : list A) (d : A) :
  map (fun i => nth i l d) (seq 0 (List.length l)) = l.
Proof.
  induction l as [|a l IH]; [reflexivity |].
  cbn [List.length seq map nth]. f_equal.
  rewrite <- seq_shift, map_map. exact IH.
Qed.

Lemma tail_by_index {A} (l : list A) (d : A) :
  map (fun i => nth (S i) l d) (seq 0 (List.length l - 1)) = tl l.
Proof.
  destruct l as [|a l]; [reflexivity |].
  cbn [List.length tl nth]. rewrite Nat.sub_succ, Nat.sub_0_r.
  apply map_nth_seq.
Qed.

Lemma nth_pred_length {A} (l : list A) (d : A) :
  nth (List.length l - 1) l d = last l d.
Proof.
  induction l as [|a [|b l] IH]; [reflexivity | reflexivity |].
  cbn [List.length Nat.sub nth last] in *.
  now rewrite Nat.sub_0_r in IH.
Qed.

Lemma vertex_loop (l : list float64) (w : string) :
  IO.for_lt 1 (len l)
    (fun i => xi <- IO.index l i ;; IO.Fprintf (" " ++ f 5 xi)) w
  = IO.Ok tt (w ++ join (map (fun v => " " ++ f 5 v) (tl l))).
Proof.
  unfold IO.for_lt, IO.fold_lt, len.
  rewrite (rounds_writes _ _ _ (fun i => " " ++ f 5 (nth (S i) l nofloat))).
  - replace (Z.to_nat (Z.of_nat (List.length l) - 1))
      with (List.length l - 1)%nat by lia.
    rewrite <- (tail_by_index l nofloat). now rewrite map_map.
  - intros j w' Hj. unfold IO.bind.
    replace (1 + Z.of_nat j) with (Z.of_nat (S j)) by lia.
    now rewrite (index_in_range _ _ nofloat) by lia.
Qed.

(** What [deckpolygon] writes on [n >= 3] points: one polygon element whose
    [xc] holds [x[0] .. x[n-1]] followed by [x[n-1]] once more, and likewise
    for [yc]: the loops already reach the last index, and the statement
    that closes each attribute prints it again. *)
Lemma deckpolygon_writes (x y : list float64) (color : string) (w : string) :
  List.length x = List.length y -> (3 <= List.length x)%nat ->
  deckpolygon x y color w
  = IO.Ok tt
      (w ++ "<polygon color=" ++ q (fst (colorop color))
         ++ " opacity=" ++ q (snd (colorop color))
         ++ " xc=" ++ DQ ++ vertex_list (x ++ [last x nofloat]) ++ DQ
         ++ " yc=" ++ DQ ++ vertex_list (y ++ [last y nofloat]) ++ DQ
         ++ "/>" ++ LF).
Proof.
  intros Hlen Hn. unfold deckpolygon.
  replace (len x <? 3) with false
    by (symmetry; apply Z.ltb_ge; unfold len; lia).
  replace (len x =? len y) with true
    by (symmetry; apply Z.eqb_eq; unfold len; lia).
  cbn [orb negb]. destruct (colorop color) as [fill op]. cbn [fst snd].
  unfold IO.bind at 1. change 0 with (Z.of_nat 0).
  rewrite (index_in_range x 0 nofloat) by lia.
  unfold IO.bind at 1. unfold IO.Fprintf at 1.
  unfold IO.bind at 1. rewrite vertex_loop.
  unfold IO.bind at 1.
  replace (len x - 1) with (Z.of_nat (List.length x - 1))
    by (unfold len; lia).
  rewrite (index_in_range x _ nofloat) by lia.
  unfold IO.bind at 1. unfold IO.Fprintf at 1.
  unfold IO.bind at 1.
  rewrite (index_in_range y 0 nofloat) by lia.
  unfold IO.bind at 1. unfold IO.Fprintf at 1.
  unfold IO.bind at 1.
  replace (len x) with (len y) by (unfold len; lia).
  rewrite vertex_loop.
  unfold IO.bind at 1.
  rewrite Hlen. rewrite (index_in_range y _ nofloat) by lia.
  unfold IO.Fprintf. f_equal.
  rewrite <- Hlen at 1. rewrite !nth_pred_length.
  destruct x as [|a x']; [simpl in Hn; lia |].
  destruct y as [|b y']; [simpl in Hlen; lia |].
  unfold vertex_list. cbn [hd tl app nth].
  rewrite !map_app, !join_app. cbn [map join].
  rewrite !append_assoc. reflexivity.
Qed.

(** C1 (the code at the specification's example).  On [x = [0,1,1]],
    [y = [0,0,1]] and style ["blue:80"], [deckpolygon] writes one polygon
    element with color ["blue"] and opacity ["80"], but its [xc] and [yc]
    hold four values each: the last vertex is written twice, where the
    claim has the three given values and nothing appended. *)
Theorem deckpolygon_example_repeats_last_vertex :
  let o := F64.of_Z 0 in
  let i := F64.of_Z 1 in
  deckpolygon [o; i; i] [o; o; i] "blue:80" ""
  = IO.Ok tt
      ("<polygon color=" ++ DQ ++ "blue" ++ DQ
       ++ " opacity=" ++ DQ ++ "80" ++ DQ
       ++ " xc=" ++ DQ ++ "0.00000 1.00000 1.00000 1.00000" ++ DQ
       ++ " yc=" ++ DQ ++ "0.00000 0.00000 1.00000 1.00000" ++ DQ
       ++ "/>" ++ LF)
  /\ deckpolygon [o; i; i] [o; o; i] "blue:80" ""
     <> IO.Ok tt
          ("<polygon color=" ++ DQ ++ "blue" ++ DQ
           ++ " opacity=" ++ DQ ++ "80" ++ DQ
           ++ " xc=" ++ DQ ++ "0.00000 1.00000 1.00000" ++ DQ
           ++ " yc=" ++ DQ ++ "0.00000 0.00000 1.00000" ++ DQ
           ++ "/>" ++ LF).
Proof.
  split; [vm_compute; reflexivity | vm_compute; discriminate].
Qed.

(** ** The dot element *)

(** C2 (the code at a concrete dot).  The element [deckdot] and
    [PointCoords] write has no space between [hr="100"] and [color=]:
    the format constant [dotfmt] runs the two attributes together, where
    [linefmt] separates every attribute from the next. *)
Theorem dot_element_runs_hr_into_color :
  let half := F64.of_frac 1 2 in
  let quarter := F64.of_frac 1 4 in
  let unit := {| Xmin := F64.of_Z 0; Xmax := F64.of_Z 1;
                 Ymin := F64.of_Z 0; Ymax := F64.of_Z 1;
                 Latmin := F64.of_Z 0; Latmax := F64.of_Z 1;
                 Longmin := F64.of_Z 0; Longmax := F64.of_Z 1 |} in
  let element :=
    "<ellipse xp=" ++ DQ ++ "0.5000000" ++ DQ
    ++ " yp=" ++ DQ ++ "0.2500000" ++ DQ
    ++ " hr=" ++ DQ ++ "100" ++ DQ ++ "color=" ++ DQ ++ "red" ++ DQ
    ++ " opacity=" ++ DQ ++ "50" ++ DQ
    ++ " wp=" ++ DQ ++ "1.000" ++ DQ ++ "/>" ++ LF in
  deckdot [half] [quarter] "red:50" (F64.of_Z 1) "" = IO.Ok tt element
  /\ PointCoords {| shp.X := half; shp.Y := quarter |} unit
       {| maptype := "dot"; color := "red:50"; shapesize := F64.of_Z 1 |} ""
     = IO.Ok tt element.
Proof.
  split; vm_compute; reflexivity.
Qed.

(** ** Parts of a polygon or polyline *)


Lemma firstn_succ_skipn {A} (l : list A) (n lo : nat) (d : A) :
  (lo < List.length l)%nat ->
  firstn (S n) (skipn lo l) = nth lo l d :: firstn n (skipn (S lo) l).
Proof.
  revert lo. induction l as [|a l IH]; intros lo H; [simpl in H; lia |].
  destruct lo as [|lo]; [reflexivity |].
  cbn [skipn nth]. apply IH. simpl in H. lia.
Qed.

Lemma mapped_rounds (points : list shp.Point) (g : Geometry) (n : nat) :
  forall (lo : nat) (x y : list float64) (w : string),
    (lo + n <= List.length points)%nat ->
    IO.rounds n (Z.of_nat lo) (x, y) (fun j xy =>
      let '(x, y) := xy in
      px <- IO.index points j ;;
      py <- IO.index points j ;;
      IO.ret ((x ++ [mapX g px])%list, (y ++ [mapY g py])%list)) w
    = IO.Ok ((x ++ map (mapX g) (firstn n (skipn lo points)))%list,
             (y ++ map (mapY g) (firstn n (skipn lo points)))%list) w.
Proof.
  induction n as [|n IH]; intros lo x y w H.
  - cbn [IO.rounds firstn map]. now rewrite !app_nil_r.
  - cbn [IO.rounds]. unfold IO.bind at 1. unfold IO.bind at 1.
    rewrite (index_in_range points lo (shp.Build_Point nofloat nofloat))
      by lia.
    unfold IO.bind at 1.
    rewrite (index_in_range points lo (shp.Build_Point nofloat nofloat))
      by lia.
    unfold IO.ret at 1.
    replace (Z.of_nat lo + 1) with (Z.of_nat (S lo)) by lia.
    rewrite IH by lia.
    rewrite (firstn_succ_skipn points n lo
               (shp.Build_Point nofloat nofloat)) by lia.
    cbn [map]. now rewrite <- !app_assoc.
Qed.

Lemma mapped_range_in_bounds (points : list shp.Point) (g : Geometry)
  (lo hi : Z) (w : string) :
  0 <= lo -> hi <= len points ->
  mapped_range points g lo hi w
  = IO.Ok (projected g (points_between points lo hi)) w.
Proof.
  intros Hlo Hhi. unfold mapped_range, IO.fold_lt, len in *.
  rewrite <- (Z2Nat.id lo) at 2 by exact Hlo.
  destruct (Z.le_gt_cases hi lo) as [Hempty | Hsome].
  - unfold projected, points_between.
    replace (Z.to_nat (hi - lo)) with 0%nat by lia. reflexivity.
  - rewrite (mapped_rounds points g) by lia. reflexivity.
Qed.

Lemma rounds_for_each {A} (act : A -> IO.t unit) (n : nat) :
  forall (i : Z) (body : Z -> IO.t unit) (elem : nat -> A),
    (forall j w, (j < n)%nat -> body (i + Z.of_nat j) w = act (elem j) w) ->
    forall w, IO.rounds n i tt (fun k _ => body k) w
              = IO.for_each (map elem (seq 0 n)) act w.
Proof.
  induction n as [|n IH]; intros i body elem Hbody w; [reflexivity |].
  cbn [IO.rounds seq map IO.for_each]. unfold IO.bind.
  specialize (Hbody 0%nat w ltac:(lia)) as H0.
  rewrite Z.add_0_r in H0. rewrite H0.
  destruct (act (elem 0%nat) w) as [[] w' | w']; [| reflexivity].
  rewrite <- seq_shift, map_map.
  apply (IH (i + 1) body (fun j => elem (S j))).
  intros j w0 Hj. rewrite <- (Hbody (S j) w0 ltac:(lia)).
  f_equal. lia.
Qed.

Lemma for_each_app {A} (a b : list A) (act : A -> IO.t unit) (w : string) :
  IO.for_each (a ++ b) act w
  = IO.bind (IO.for_each a act) (fun _ => IO.for_each b act) w.
Proof.
  revert w. induction a as [|e a IH]; intros w; [reflexivity |].
  cbn [app IO.for_each]. unfold IO.bind in *.
  destruct (act e w) as [[] w' | w']; [apply IH | reflexivity].
Qed.

Lemma for_each_writes_in {A} (act : A -> IO.t unit) (g : A -> string)
  (l : list A) :
  (forall a w, In a l -> act a w = IO.Ok tt (w ++ g a)) ->
  forall w, IO.for_each l act w = IO.Ok tt (w ++ join (map g l)).
Proof.
  induction l as [|a l IH]; intros Hact w.
  - cbn. now rewrite append_nil_r.
  - cbn [IO.for_each map join]. unfold IO.bind.
    rewrite (Hact a w (or_introl eq_refl)).
    rewrite IH by (intros a' w0 Hin; apply Hact; now right).
    now rewrite append_assoc.
Qed.

Lemma offsets_in_range (poly : shp.PolyLine) (i : nat) :
  well_formed poly -> (i < List.length (shp.Parts poly))%nat ->
  0 <= nth i (shp.Parts poly) 0 <= len (shp.Points poly).
Proof.
  intros [_ Hpoints Hoff _] Hi. rewrite Hpoints.
  rewrite Forall_forall in Hoff. apply Hoff. now apply nth_In.
Qed.

Section PerPart.

Variable dispatch :
  list float64 -> list float64 -> string -> string -> float64 -> IO.t unit.
Variables (poly : shp.PolyLine) (g : Geometry) (c : Config).
Hypothesis Hwf : well_formed poly.
Hypothesis Hparts : 1 <= shp.NumParts poly.

Let call (xy : list float64 * list float64) : IO.t unit :=
  dispatch (fst xy) (snd xy) (maptype c) (color c) (shapesize c).

Lemma last_is_count_minus_one :
  wrap32 (shp.NumParts poly - 1) = shp.NumParts poly - 1.
Proof.
  destruct Hwf as [_ _ _ H32]. unfold wrap32.
  rewrite Z.mod_small; lia.
Qed.

Lemma parts_of_split :
  parts_of poly g
  = (map (part poly g) (seq 0 (Z.to_nat (shp.NumParts poly - 1)))
     ++ [part poly g (Z.to_nat (shp.NumParts poly - 1))])%list.
Proof.
  unfold parts_of.
  replace (Z.to_nat (shp.NumParts poly))
    with (Z.to_nat (shp.NumParts poly - 1) + 1)%nat by lia.
  now rewrite seq_app, map_app.
Qed.

Lemma PolygonCoords_with_parts (w : string) :
  PolygonCoords_with dispatch poly g c w
  = IO.for_each (parts_of poly g) call w.
Proof.
  pose proof (wf_parts _ Hwf) as Hlen. unfold len in Hlen.
  unfold PolygonCoords_with. rewrite last_is_count_minus_one.
  rewrite parts_of_split, for_each_app.
  apply bind_ext.
  - intros w'. unfold IO.for_lt, IO.fold_lt. rewrite Z.sub_0_r.
    apply (rounds_for_each call _ _ _ (part poly g)).
    intros j w0 Hj. rewrite Z.add_0_l. unfold IO.bind.
    rewrite (index_in_range _ _ 0) by lia.
    replace (Z.of_nat j + 1) with (Z.of_nat (S j)) by lia.
    rewrite (index_in_range _ _ 0) by lia.
    rewrite mapped_range_in_bounds.
    + unfold call, part, part_start, part_end.
      replace (Z.of_nat (S j) <? shp.NumParts poly)
        with true by (symmetry; apply Z.ltb_lt; lia).
      reflexivity.
    + apply offsets_in_range; [exact Hwf | lia].
    + apply offsets_in_range; [exact Hwf | lia].
  - intros _ w'. cbn [IO.for_each]. unfold IO.bind.
    rewrite <- (Z2Nat.id (shp.NumParts poly - 1)) at 1 by lia.
    rewrite (index_in_range _ _ 0) by lia.
    rewrite mapped_range_in_bounds.
    + unfold call, part, part_start, part_end.
      replace (Z.of_nat (S (Z.to_nat (shp.NumParts poly - 1)))
               <? shp.NumParts poly)
        with false by (symmetry; apply Z.ltb_ge; lia).
      now destruct (dispatch _ _ _ _ _ w') as [[] w'' | w''].
    + apply offsets_in_range; [exact Hwf | lia].
    + rewrite (wf_points _ Hwf). lia.
Qed.

End PerPart.




(** ** binary64 facts *)








(** *** Shifting right *)













Lemma sub_self (x : float64) :
  F64.is_number x = true -> F64.sub x x = S754_zero false.
Proof.
  destruct x as [[|] | | | s m e]; try discriminate; intros _;
    try reflexivity.
  unfold F64.sub, SFsub. rewrite Z.min_id.
  unfold shl_align. rewrite Z.sub_diag. reflexivity.
Qed.





(** ** vmap over the rationals *)

Local Open Scope Q_scope.







Local Close Scope Q_scope.

(** ** vmap over float64 *)



Local Open Scope Q_scope.


Local Close Scope Q_scope.

(** * Further properties of the emitters *)

Lemma rounds_write_then_panic (n : nat) :
  forall (i : Z) (body : Z -> IO.t unit) (g : nat -> string) (k : nat),
    (k < n)%nat ->
    (forall j w, (j < k)%nat ->
                 body (i + Z.of_nat j) w = IO.Ok tt (w ++ g j)) ->
    (forall w, body (i + Z.of_nat k) w = IO.Panic w) ->
    forall w, IO.rounds n i tt (fun k _ => body k) w
              = IO.Panic (w ++ join (map g (seq 0 k))).
Proof.
  induction n as [|n IH]; intros i body g k Hk Hok Hbad w; [lia |].
  cbn [IO.rounds]. unfold IO.bind at 1.
  destruct k as [|k].
  - specialize (Hbad w). rewrite Z.add_0_r in Hbad. rewrite Hbad.
    cbn [seq map join]. now rewrite append_nil_r.
  - specialize (Hok 0%nat w ltac:(lia)) as H0.
    rewrite Z.add_0_r in H0. rewrite H0.
    rewrite (IH (i + 1) body (fun j => g (S j)) k ltac:(lia)).
    + cbn [seq map join]. rewrite <- seq_shift, map_map.
      now rewrite append_assoc.
    + intros j w' Hj. rewrite <- (Hok (S j) w' ltac:(lia)). f_equal. lia.
    + intros w'. rewrite <- (Hbad w'). f_equal. lia.
Qed.

Lemma deckdot_writes (x y : list float64) (color : string)
  (size : float64) (w : string) :
  (List.length x <= List.length y)%nat ->
  deckdot x y color size w
  = IO.Ok tt (w ++ join (dot_elements x y color size (List.length x))).
Proof.
  intros Hlen. unfold deckdot, dot_elements, IO.for_lt, IO.fold_lt, len.
  destruct (colorop color) as [fill op]. cbn [fst snd].
  rewrite Z.sub_0_r, Nat2Z.id.
  apply (rounds_writes _ _ _
           (fun i => dotfmt (nth i x nofloat) (nth i y nofloat) fill op size)).
  intros j w' Hj. rewrite Z.add_0_l. unfold IO.bind.
  now rewrite !(index_in_range _ j nofloat) by lia.
Qed.

(** X1.  When [y] is at least as long as [x], [deckdot] returns having
    written exactly one ellipse element per abscissa, in input order, each
    with the one color, opacity and size; ordinates beyond the length of
    [x] are ignored, and empty [x] writes nothing. *)
Theorem deckdot_one_element_per_pair (x y : list float64) (color : string)
  (size : float64) (w : string) :
  (List.length x <= List.length y)%nat ->
  deckdot x y color size w
  = IO.Ok tt (w ++ join (dot_elements x y color size (List.length x)))
  /\ List.length (dot_elements x y color size (List.length x))
     = List.length x
  /\ deckdot x y color size w = deckdot x (firstn (List.length x) y) color size w
  /\ deckdot [] y color size w = IO.Ok tt w.
Proof.
  intros Hlen. split; [now apply deckdot_writes |].
  split; [unfold dot_elements; now rewrite length_map, length_seq |].
  split.
  - rewrite !deckdot_writes by (rewrite ?length_firstn; lia).
    do 3 f_equal. unfold dot_elements. apply map_ext_in.
    intros i Hi. apply in_seq in Hi. f_equal.
    rewrite <- (firstn_skipn (List.length x) y) at 1.
    rewrite app_nth1 by (rewrite length_firstn; lia). reflexivity.
  - unfold deckdot. now destruct (colorop color).
Qed.

(** X2.  When [y] is shorter than [x], [deckdot] panics (index out of
    range at [y[len y]]), and by then it has written the dots of the first
    [len y] pairs: the destination keeps a partial output. *)
Theorem deckdot_panics_after_the_common_prefix (x y : list float64)
  (color : string) (size : float64) (w : string) :
  (List.length y < List.length x)%nat ->
  deckdot x y color size w
  = IO.Panic (w ++ join (dot_elements x y color size (List.length y))).
Proof.
  intros Hlen. unfold deckdot, dot_elements, IO.for_lt, IO.fold_lt, len.
  destruct (colorop color) as [fill op]. cbn [fst snd].
  rewrite Z.sub_0_r, Nat2Z.id.
  apply (rounds_write_then_panic _ _ _
           (fun i => dotfmt (nth i x nofloat) (nth i y nofloat) fill op size));
    [exact Hlen | |].
  - intros j w' Hj. rewrite Z.add_0_l. unfold IO.bind.
    now rewrite !(index_in_range _ j nofloat) by lia.
  - intros w'. rewrite Z.add_0_l. unfold IO.bind.
    rewrite (index_in_range x _ nofloat) by lia.
    rewrite (index_out_of_range y); [reflexivity |]. unfold len. lia.
Qed.

Lemma deckpolygon_result (x y : list float64) (color : string) (w : string) :
  deckpolygon x y color w = IO.Ok tt (w ++ polygon_output x y color).
Proof.
  unfold polygon_output, too_short_or_uneven.
  destruct ((len x <? 3) || negb (len x =? len y)) eqn:G.
  - rewrite append_nil_r. unfold deckpolygon. now rewrite G.
  - apply orb_false_iff in G as [G3 Ge].
    apply Z.ltb_ge in G3. apply negb_false_iff, Z.eqb_eq in Ge.
    unfold len in *.
    rewrite deckpolygon_writes by lia. reflexivity.
Qed.

(** X3.  [deckpolygon] never panics.  On every input it returns normally:
    the destination is unchanged when there are fewer than 3 abscissas or
    the two lengths differ, and otherwise it has received exactly one
    polygon element, whose [xc] and [yc] hold the given values followed by
    the last one again. *)
Theorem deckpolygon_never_panics (x y : list float64) (color : string)
  (w : string) :
  deckpolygon x y color w = IO.Ok tt (w ++ polygon_output x y color)
  /\ IO.panics (deckpolygon x y color w) = false
  /\ polygon_output x y color
     = if (List.length x <? 3)%nat || negb (List.length x =? List.length y)%nat
       then "" else polygon_element x y color.
Proof.
  split; [apply deckpolygon_result |].
  split; [now rewrite deckpolygon_result |].
  unfold polygon_output, too_short_or_uneven, len.
  replace (Z.of_nat (List.length x) <? 3) with (List.length x <? 3)%nat.
  - replace (Z.of_nat (List.length x) =? Z.of_nat (List.length y))
      with (List.length x =? List.length y)%nat; [reflexivity |].
    destruct (Nat.eqb_spec (List.length x) (List.length y)) as [E | E].
    + symmetry. apply Z.eqb_eq. lia.
    + symmetry. apply Z.eqb_neq. lia.
  - destruct (Nat.ltb_spec (List.length x) 3) as [E | E].
    + symmetry. apply Z.ltb_lt. lia.
    + symmetry. apply Z.ltb_ge. lia.
Qed.

(** X4.  The degenerate loops of [deckpolyline].  A single point gives one
    line from the point to itself; two points give their one segment twice,
    once as the chain and once as the closing segment. *)
Theorem deckpolyline_degenerate_loops (a a' b b' : float64)
  (ys : list float64) (color : string) (size : float64) (w : string) :
  let fill := fst (colorop color) in
  let op := snd (colorop color) in
  deckpolyline [a] (b :: ys) color size w
  = IO.Ok tt (w ++ linefmt a b a b fill op size)
  /\ deckpolyline [a; a'] (b :: b' :: ys) color size w
     = IO.Ok tt (w ++ linefmt a b a' b' fill op size
                   ++ linefmt a b a' b' fill op size).
Proof.
  intros fill op. split.
  - rewrite deckpolyline_writes by (simpl; try discriminate; lia).
    cbn [loop_lines List.length Nat.sub seq map app join segment nth].
    now rewrite append_nil_r.
  - rewrite deckpolyline_writes by (simpl; try discriminate; lia).
    cbn [loop_lines List.length Nat.sub seq map app join segment nth].
    now rewrite append_nil_r.
Qed.

(** * Further properties of colorop *)

(** X5.  [colorop] loses nothing.  Either the style was split at its first
    [":"], and then color, [":"] and opacity put together give the style
    back, the color is not empty and holds no [":"] (later separators stay
    in the opacity); or it was not split, the color is the whole style and
    the opacity is ["100"], which happens exactly when the style has no
    [":"] or begins with one. *)
Theorem colorop_recomposes (s : string) :
  let c := fst (colorop s) in
  let o := snd (colorop s) in
  (s = c ++ ":" ++ o /\ occurs ":" c = false /\ c <> "")
  \/ (c = s /\ o = "100"
      /\ (occurs ":" s = false \/ exists post, s = ":" ++ post)).
Proof.
  intros c o. subst c o.
  destruct (first_separator ":" s) as [Hno | (pre & post & -> & Hpre)].
  - right. rewrite (colorop_no_separator _ Hno). auto.
  - destruct (String.eqb_spec pre "") as [-> | Hne].
    + right. change ("" ++ String ":" post) with (":" ++ post).
      rewrite colorop_leading_separator. cbn [fst snd].
      repeat split. right. now exists post.
    + left. change (pre ++ String ":" post) with (pre ++ ":" ++ post).
      rewrite (colorop_inner_separator _ _ Hpre Hne). cbn [fst snd].
      now repeat split.
Qed.

(** X6.  Splitting is stable: the color [colorop] returns is a style that
    [colorop] leaves whole, with the default opacity ["100"]. *)
Theorem colorop_color_is_stable (s : string) :
  colorop (fst (colorop s)) = (fst (colorop s), "100").
Proof.
  destruct (first_separator ":" s) as [Hno | (pre & post & -> & Hpre)].
  - rewrite (colorop_no_separator _ Hno). cbn [fst].
    now apply colorop_no_separator.
  - destruct (String.eqb_spec pre "") as [-> | Hne].
    + change ("" ++ String ":" post) with (":" ++ post).
      rewrite colorop_leading_separator. cbn [fst].
      apply colorop_leading_separator.
    + change (pre ++ String ":" post) with (pre ++ ":" ++ post).
      rewrite (colorop_inner_separator _ _ Hpre Hne). cbn [fst].
      now apply colorop_no_separator.
Qed.

(** * Further properties of mapshape *)

Lemma mapshape_panics (x y : list float64) (shape color : string)
  (size : float64) (w : string) :
  List.length x = List.length y ->
  IO.panics (mapshape x y shape color size w)
  = keyword_in shape line_keywords && is_nil x.
Proof.
  intros Hlen. unfold mapshape.
  destruct (keyword_in shape ["p"; "poly"; "region"; "polygon"]) eqn:EP.
  - rewrite deckpolygon_result. apply keyword_in_spec in EP. simpl in EP.
    repeat (destruct EP as [EP | EP]; [subst; reflexivity |]).
    contradiction.
  - destruct (keyword_in shape ["l"; "line"; "border"]) eqn:EL.
    + change (keyword_in shape line_keywords) with
        (keyword_in shape ["l"; "line"; "border"]).
      rewrite EL. destruct x as [|a x].
      * now rewrite deckpolyline_empty.
      * rewrite deckpolyline_writes by (try discriminate; lia). reflexivity.
    + change (keyword_in shape line_keywords) with
        (keyword_in shape ["l"; "line"; "border"]).
      rewrite EL.
      destruct (keyword_in shape ["d"; "dot"; "circle"]); [| reflexivity].
      now rewrite deckdot_writes by lia.
Qed.

(** X7.  On parallel coordinate sequences (equal lengths) [mapshape]
    panics in one case only: a line keyword with no points.  Every other
    keyword, recognised or not, returns normally on every such input. *)
Theorem mapshape_panics_only_on_an_empty_line (x y : list float64)
  (shape color : string) (size : float64) (w : string) :
  List.length x = List.length y ->
  (IO.panics (mapshape x y shape color size w) = true
   <-> In shape line_keywords /\ x = []).
Proof.
  intros Hlen. rewrite (mapshape_panics _ _ _ _ _ _ Hlen).
  rewrite andb_true_iff, keyword_in_spec.
  split; intros [Hk Hx]; split; try exact Hk.
  - now destruct x.
  - now subst.
Qed.

(** * Further properties of the adapters *)

Lemma dot_elements_of_points {A} (fx fy : A -> float64) (ps : list A)
  (color : string) (size : float64) :
  dot_elements (map fx ps) (map fy ps) color size (List.length ps)
  = map (fun p => dotfmt (fx p) (fy p) (fst (colorop color))
                         (snd (colorop color)) size) ps.
Proof.
  unfold dot_elements. induction ps as [|p ps IH]; [reflexivity |].
  cbn [List.length seq map nth]. f_equal.
  rewrite <- seq_shift, map_map. exact IH.
Qed.

Lemma deckdot_of_points (g : Geometry) (ps : list shp.Point)
  (color : string) (size : float64) (w : string) :
  deckdot (map (mapX g) ps) (map (mapY g) ps) color size w
  = IO.Ok tt (w ++ join (map (point_dot g color size) ps)).
Proof.
  rewrite deckdot_writes by (rewrite !length_map; lia).
  rewrite length_map, dot_elements_of_points. reflexivity.
Qed.

Lemma mapped_rounds_panic (points : list shp.Point) (g : Geometry) (n : nat) :
  forall (lo : nat) (x y : list float64) (w : string),
    (0 < n)%nat -> (List.length points < lo + n)%nat ->
    IO.rounds n (Z.of_nat lo) (x, y) (fun j xy =>
      let '(x, y) := xy in
      px <- IO.index points j ;;
      py <- IO.index points j ;;
      IO.ret ((x ++ [mapX g px])%list, (y ++ [mapY g py])%list)) w
    = IO.Panic w.
Proof.
  induction n as [|n IH]; intros lo x y w Hn H; [lia |].
  cbn [IO.rounds]. unfold IO.bind at 1. unfold IO.bind at 1.
  destruct (Nat.lt_ge_cases lo (List.length points)) as [Hin | Hout].
  - rewrite (index_in_range points lo (shp.Build_Point nofloat nofloat))
      by lia.
    unfold IO.bind at 1.
    rewrite (index_in_range points lo (shp.Build_Point nofloat nofloat))
      by lia.
    unfold IO.ret at 1.
    replace (Z.of_nat lo + 1) with (Z.of_nat (S lo)) by lia.
    apply IH; lia.
  - rewrite index_out_of_range; [reflexivity |]. unfold len. lia.
Qed.

Lemma mapped_range_out_of_bounds (points : list shp.Point) (g : Geometry)
  (lo hi : Z) (w : string) :
  0 <= lo -> lo < hi -> len points < hi ->
  mapped_range points g lo hi w = IO.Panic w.
Proof.
  intros Hlo Hlt Hhi. unfold mapped_range, IO.fold_lt, len in *.
  rewrite <- (Z2Nat.id lo) at 2 by exact Hlo.
  apply (mapped_rounds_panic points g); lia.
Qed.

Lemma MultipointCoords_writes (mp : shp.MultiPoint) (g : Geometry)
  (c : Config) (w : string) :
  shp.MNumPoints mp <= len (shp.MPoints mp) ->
  MultipointCoords mp g c w
  = IO.Ok tt
      (w ++ join (map (point_dot g (color c) (shapesize c))
                      (firstn (Z.to_nat (shp.MNumPoints mp))
                              (shp.MPoints mp)))).
Proof.
  intros Hn. unfold MultipointCoords, IO.bind.
  rewrite mapped_range_in_bounds by lia.
  unfold projected, points_between. cbn [fst snd].
  rewrite Z.sub_0_r. change (Z.to_nat 0) with 0%nat. cbn [skipn].
  change (mapshape ?x ?y "dot" ?c ?s) with (deckdot x y c s).
  apply deckdot_of_points.
Qed.

(** X8.  [MultipointCoords] draws every point as a dot, whatever the
    configured shape keyword: when the record's count does not exceed its
    point sequence, the destination receives one ellipse element per
    counted point, in order, at the mapped coordinates, with the
    configured color and size; a count of zero or less writes nothing; and
    replacing the shape keyword by any other changes nothing. *)
Theorem MultipointCoords_draws_dots (mp : shp.MultiPoint) (g : Geometry)
  (c : Config) (keyword : string) (w : string) :
  shp.MNumPoints mp <= len (shp.MPoints mp) ->
  MultipointCoords mp g c w
  = IO.Ok tt
      (w ++ join (map (point_dot g (color c) (shapesize c))
                      (firstn (Z.to_nat (shp.MNumPoints mp))
                              (shp.MPoints mp))))
  /\ MultipointCoords mp g
       {| maptype := keyword; color := color c; shapesize := shapesize c |} w
     = MultipointCoords mp g c w
  /\ (shp.MNumPoints mp <= 0 -> MultipointCoords mp g c w = IO.Ok tt w).
Proof.
  intros Hn. split; [now apply MultipointCoords_writes |].
  split; [reflexivity |].
  intros Hz. rewrite MultipointCoords_writes by exact Hn.
  replace (Z.to_nat (shp.MNumPoints mp)) with 0%nat by lia.
  cbn [firstn map join]. now rewrite append_nil_r.
Qed.

(** X9.  [MultipointCoords] is all or nothing: when the record counts more
    points than its sequence holds, the call panics while still collecting
    coordinates, before anything is written. *)
Theorem MultipointCoords_panics_before_writing (mp : shp.MultiPoint)
  (g : Geometry) (c : Config) (w : string) :
  len (shp.MPoints mp) < shp.MNumPoints mp ->
  MultipointCoords mp g c w = IO.Panic w.
Proof.
  intros Hn. unfold MultipointCoords, IO.bind.
  rewrite mapped_range_out_of_bounds; [reflexivity | lia | | exact Hn].
  unfold len in Hn. lia.
Qed.

(** X10.  [PointCoords] is the one-point case of the other dot paths: it
    writes what [MultipointCoords] writes on a record holding just that
    point, which is what [mapshape] writes for a dot keyword on the mapped
    coordinates; it never panics and never reads the shape keyword. *)
Theorem PointCoords_is_the_one_point_case (p : shp.Point) (g : Geometry)
  (c : Config) (w : string) :
  PointCoords p g c w
  = MultipointCoords {| shp.MNumPoints := 1; shp.MPoints := [p] |} g c w
  /\ PointCoords p g c w
     = mapshape [mapX g p] [mapY g p] "circle" (color c) (shapesize c) w
  /\ PointCoords p g c w
     = IO.Ok tt (w ++ point_dot g (color c) (shapesize c) p).
Proof.
  assert (H : PointCoords p g c w
              = IO.Ok tt (w ++ point_dot g (color c) (shapesize c) p)).
  { unfold PointCoords, point_dot. now destruct (colorop (color c)). }
  split; [| split; [| exact H]].
  - rewrite H, MultipointCoords_writes by discriminate.
    cbn [shp.MNumPoints shp.MPoints]. change (Z.to_nat 1) with 1%nat.
    cbn [firstn map join]. now rewrite append_nil_r.
  - rewrite H. change (mapshape ?x ?y "circle" ?k ?s) with (deckdot x y k s).
    rewrite (deckdot_of_points g [p]). cbn [map join].
    now rewrite append_nil_r.
Qed.

(** X11.  A polygon or polyline record without parts makes its adapter
    panic before anything is written and before the dispatcher is invoked:
    with [NumParts <= 0] the loop over the parts is skipped and the last
    part is looked up at a negative index. *)
Theorem adapters_panic_without_parts
  (dispatch :
     list float64 -> list float64 -> string -> string -> float64 -> IO.t unit)
  (poly : shp.PolyLine) (g : Geometry) (c : Config) (w : string) :
  - 2 ^ 31 < shp.NumParts poly <= 0 ->
  PolygonCoords_with dispatch poly g c w = IO.Panic w
  /\ PolylineCoords_with dispatch poly g c w = IO.Panic w
  /\ PolygonCoords poly g c w = IO.Panic w
  /\ PolylineCoords poly g c w = IO.Panic w.
Proof.
  intros Hn.
  assert (Hlast : wrap32 (shp.NumParts poly - 1) = shp.NumParts poly - 1)
    by (unfold wrap32; rewrite Z.mod_small; lia).
  assert (H : forall d, PolygonCoords_with d poly g c w = IO.Panic w).
  { intros d. unfold PolygonCoords_with. rewrite Hlast.
    unfold IO.for_lt, IO.fold_lt.
    replace (Z.to_nat (shp.NumParts poly - 1 - 0)) with 0%nat by lia.
    cbn [IO.rounds]. unfold IO.bind, IO.ret.
    rewrite index_out_of_range; [reflexivity | lia]. }
  repeat split; apply H.
Qed.

Lemma for_each_panics_in {A} (act : A -> IO.t unit) (bad : A -> bool)
  (l : list A) :
  (forall a w, In a l -> IO.panics (act a w) = bad a) ->
  forall w, IO.panics (IO.for_each l act w) = existsb bad l.
Proof.
  induction l as [|a l IH]; intros Hact w; [reflexivity |].
  cbn [IO.for_each existsb]. unfold IO.bind.
  rewrite <- (Hact a w (or_introl eq_refl)).
  destruct (act a w) as [[] w' | w']; [| reflexivity].
  apply IH. intros a' w0 Hin. apply Hact. now right.
Qed.

Lemma part_lengths (poly : shp.PolyLine) (g : Geometry)
  (xy : list float64 * list float64) :
  In xy (parts_of poly g) -> List.length (fst xy) = List.length (snd xy).
Proof.
  unfold parts_of. intros Hin. apply in_map_iff in Hin as (i & <- & _).
  unfold part, projected. cbn [fst snd]. now rewrite !length_map.
Qed.

Lemma part_bounds (poly : shp.PolyLine) (i : nat) :
  well_formed poly -> Z.of_nat i < shp.NumParts poly ->
  0 <= part_start poly i <= len (shp.Points poly)
  /\ part_end poly i <= len (shp.Points poly).
Proof.
  intros Hwf Hi.
  pose proof (wf_parts _ Hwf) as Hlen. unfold len in Hlen.
  split; [apply offsets_in_range; [exact Hwf | lia] |].
  unfold part_end.
  destruct (Z.of_nat (S i) <? shp.NumParts poly) eqn:E.
  - apply Z.ltb_lt in E. apply offsets_in_range; [exact Hwf | lia].
  - rewrite (wf_points _ Hwf). lia.
Qed.

Lemma empty_part_spec (poly : shp.PolyLine) (g : Geometry) (i : nat) :
  well_formed poly -> Z.of_nat i < shp.NumParts poly ->
  (empty_part (part poly g i) = true
   <-> part_end poly i <= part_start poly i).
Proof.
  intros Hwf Hi. destruct (part_bounds poly i Hwf Hi) as [[Hlo Hlo'] Hhi].
  unfold empty_part, part, projected, points_between, len in *.
  cbn [fst].
  set (ps := firstn _ _).
  assert (Hlen : List.length ps
                 = Nat.min (Z.to_nat (part_end poly i - part_start poly i))
                           (List.length (shp.Points poly)
                            - Z.to_nat (part_start poly i)))
    by (unfold ps; now rewrite length_firstn, length_skipn).
  destruct ps as [|p ps]; cbn [map List.length] in *; split; intros H;
    try discriminate; try reflexivity; lia.
Qed.

(** X12.  On a well-formed record with at least one part, the polygon and
    polyline adapters panic in one case only: the configured keyword is a
    line keyword and some part holds no point (its end offset is not
    beyond its start offset).  With every other keyword, and with line
    keywords on records without empty parts, they return normally. *)
Theorem adapters_panic_only_on_an_empty_line_part (poly : shp.PolyLine)
  (g : Geometry) (c : Config) (w : string) :
  well_formed poly -> 1 <= shp.NumParts poly ->
  (IO.panics (PolygonCoords poly g c w) = true
   <-> In (maptype c) line_keywords
       /\ exists i : nat, Z.of_nat i < shp.NumParts poly
                          /\ part_end poly i <= part_start poly i)
  /\ PolylineCoords poly g c w = PolygonCoords poly g c w.
Proof.
  intros Hwf Hparts. split; [| reflexivity].
  unfold PolygonCoords. rewrite (PolygonCoords_with_parts _ _ _ _ Hwf Hparts).
  rewrite (for_each_panics_in _
             (fun xy => keyword_in (maptype c) line_keywords && empty_part xy)).
  - rewrite existsb_exists. unfold parts_of. split.
    + intros (xy & Hin & Hbad).
      apply in_map_iff in Hin as (i & <- & Hi). apply in_seq in Hi.
      apply andb_true_iff in Hbad as [Hk He].
      split; [now apply keyword_in_spec |].
      exists i. split; [lia |].
      apply (empty_part_spec poly g i Hwf); [lia | exact He].
    + intros (Hk & i & Hi & He).
      exists (part poly g i). split.
      * apply in_map, in_seq. lia.
      * apply andb_true_iff. split; [now apply keyword_in_spec |].
        now apply (empty_part_spec poly g i Hwf).
  - intros xy w' Hin.
    rewrite mapshape_panics by (now apply (part_lengths poly g)).
    unfold empty_part, is_nil. reflexivity.
Qed.

(** X13.  With a polygon keyword, on a well-formed record with at least
    one part, the adapters return normally and the destination receives,
    part after part, the polygon element of each part that has at least 3
    points; a part with fewer points is skipped without a trace. *)
Theorem adapters_draw_the_polygons_of_large_parts (poly : shp.PolyLine)
  (g : Geometry) (c : Config) (w : string) :
  well_formed poly -> 1 <= shp.NumParts poly ->
  In (maptype c) polygon_keywords ->
  PolygonCoords poly g c w
  = IO.Ok tt
      (w ++ join (map (fun xy => polygon_output (fst xy) (snd xy) (color c))
                      (parts_of poly g)))
  /\ PolylineCoords poly g c w = PolygonCoords poly g c w
  /\ forall xy, In xy (parts_of poly g) ->
       polygon_output (fst xy) (snd xy) (color c)
       = if (List.length (fst xy) <? 3)%nat then ""
         else polygon_element (fst xy) (snd xy) (color c).
Proof.
  intros Hwf Hparts Hk. split; [| split; [reflexivity |]].
  - unfold PolygonCoords.
    rewrite (PolygonCoords_with_parts _ _ _ _ Hwf Hparts).
    apply for_each_writes_in. intros xy w' _.
    rewrite (mapshape_polygon _ _ _ _ _ Hk). apply deckpolygon_result.
  - intros xy Hin. pose proof (part_lengths poly g xy Hin) as Hlen.
    unfold polygon_output, too_short_or_uneven, len.
    rewrite Hlen, Z.eqb_refl. cbn [negb]. rewrite orb_false_r.
    rewrite <- Hlen.
    destruct (Nat.ltb_spec (List.length (fst xy)) 3) as [E | E].
    + replace (Z.of_nat (List.length (fst xy)) <? 3) with true
        by (symmetry; apply Z.ltb_lt; lia). reflexivity.
    + replace (Z.of_nat (List.length (fst xy)) <? 3) with false
        by (symmetry; apply Z.ltb_ge; lia). reflexivity.
Qed.

(** X14.  With a dot keyword, on a well-formed record with at least one
    part, the adapters return normally and the destination receives one
    ellipse element per point of each part, part after part and in point
    order inside a part; an empty part contributes nothing. *)
Theorem adapters_draw_a_dot_per_point (poly : shp.PolyLine)
  (g : Geometry) (c : Config) (w : string) :
  well_formed poly -> 1 <= shp.NumParts poly ->
  In (maptype c) dot_keywords ->
  PolygonCoords poly g c w
  = IO.Ok tt
      (w ++ join (map (fun i =>
                    join (map (point_dot g (color c) (shapesize c))
                              (points_between (shp.Points poly)
                                 (part_start poly i) (part_end poly i))))
                  (seq 0 (Z.to_nat (shp.NumParts poly)))))
  /\ PolylineCoords poly g c w = PolygonCoords poly g c w.
Proof.
  intros Hwf Hparts Hk. split; [| reflexivity].
  unfold PolygonCoords.
  rewrite (PolygonCoords_with_parts _ _ _ _ Hwf Hparts).
  unfold parts_of.
  rewrite (for_each_writes_in _
             (fun xy => join (dot_elements (fst xy) (snd xy) (color c)
                                (shapesize c) (List.length (fst xy))))).
  - do 2 f_equal. rewrite map_map. apply (f_equal join).
    apply map_ext. intros i.
    unfold part, projected. cbn [fst snd].
    now rewrite length_map, dot_elements_of_points.
  - intros xy w' Hin. rewrite (mapshape_dot _ _ _ _ _ Hk).
    apply deckdot_writes.
    rewrite (part_lengths poly g xy); [lia |]. exact Hin.
Qed.

(** * Further properties of vmap *)

Lemma sub_equal (x y : float64) :
  F64.eqb x y = true ->
  F64.is_zero (F64.sub y x) = true \/ F64.sub y x = S754_nan.
Proof.
  unfold F64.eqb, SFeqb, SFcompare.
  destruct x as [sx | sx | | sx mx ex], y as [sy | sy | | sy my ey];
    intros H; try discriminate;
    try (destruct sx; discriminate); try (destruct sy; discriminate).
  - left. now destruct sx, sy.
  - destruct sx, sy; try discriminate; now right.
  - left.
    assert (E : sx = sy /\ ex = ey /\ mx = my).
    { destruct sx, sy; try discriminate;
        destruct (Z.compare_spec ex ey) as [E | E | E]; try discriminate;
        (split; [reflexivity | split; [exact E |]]);
        apply Pos.compare_eq_iff;
        change (Pos.compare mx my) with (Pos.compare_cont Eq mx my);
        destruct (Pos.compare_cont Eq mx my) eqn:C; try discriminate;
        reflexivity. }
    destruct E as (-> & -> & ->).
    now rewrite (sub_self (S754_finite sy my ey)).
Qed.

Lemma div_by_zero_or_nan (p d : float64) :
  F64.is_zero d = true \/ d = S754_nan ->
  F64.is_number (F64.div p d) = false.
Proof.
  intros [H | ->]; [destruct d; try discriminate |]; now destruct p.
Qed.

Lemma add_not_a_number (l r : float64) :
  F64.is_number r = false -> F64.is_number (F64.add l r) = false.
Proof.
  destruct r as [| [|] | |]; try discriminate; intros _;
    now destruct l as [| [|] | |].
Qed.

Lemma vmap_of_nan (low1 high1 low2 high2 : float64) :
  vmap S754_nan low1 high1 low2 high2 = S754_nan.
Proof.
  unfold vmap. cbn [add sub mul div float64_arith].
  replace (F64.sub S754_nan low1) with S754_nan by (now destruct low1).
  replace (F64.mul (F64.sub high2 low2) S754_nan) with S754_nan
    by (now destruct (F64.sub high2 low2)).
  replace (F64.div S754_nan (F64.sub high1 low1)) with S754_nan
    by (now destruct (F64.sub high1 low1)).
  now destruct low2.
Qed.

(** X15.  [vmap] yields no finite coordinate from a source interval of
    zero width: when [low1 == high1] the result is NaN or an infinity for
    every value and every destination interval, and it is written as
    [NaN], [+Inf] or [-Inf] into the markup.  A NaN value likewise gives
    NaN, for all intervals. *)
Theorem vmap_without_finite_result (value low1 high1 low2 high2 : float64)
  (digits : nat) :
  F64.eqb low1 high1 = true ->
  F64.is_number (vmap value low1 high1 low2 high2) = false
  /\ In (Fmt.f digits (vmap value low1 high1 low2 high2))
        ["NaN"; "+Inf"; "-Inf"]
  /\ vmap S754_nan low1 high1 low2 high2 = S754_nan.
Proof.
  intros Heq.
  assert (H : F64.is_number (vmap value low1 high1 low2 high2) = false).
  { unfold vmap. cbn [add sub mul div float64_arith].
    now apply add_not_a_number, div_by_zero_or_nan, sub_equal. }
  split; [exact H |]. split; [| apply vmap_of_nan].
  destruct (vmap value low1 high1 low2 high2) as [| [|] | |];
    try discriminate; simpl; auto.
Qed.

(** * One element, one line *)

(** X16.  One element, one line.  Whatever the coordinates (NaN and
    infinities included) and whatever bytes the style holds (a line feed
    in it is escaped by the verb q), the text of a line element, of a dot
    element and of a polygon element is a body without any line feed
    followed by one line feed.  This holds for every Unicode table of
    strconv: the escapes and the copied runes of the verb q hold no line
    feed. *)
Theorem elements_are_single_lines (a b a' b' size : float64)
  (fill op color : string) (x y : list float64) :
  (exists body, linefmt a b a' b' fill op size = body ++ LF
                /\ count_lf body = 0%nat)
  /\ (exists body, dotfmt a b fill op size = body ++ LF
                   /\ count_lf body = 0%nat)
  /\ (exists body, polygon_element x y color = body ++ LF
                   /\ count_lf body = 0%nat).
Proof.
  split; [| split].
  - eexists. split.
    + unfold linefmt. rewrite <- !append_assoc. reflexivity.
    + now rewrite !count_lf_app, !count_lf_f, !count_lf_q.
  - eexists. split.
    + unfold dotfmt. rewrite <- !append_assoc. reflexivity.
    + now rewrite !count_lf_app, !count_lf_f, !count_lf_q.
  - eexists. split.
    + unfold polygon_element. rewrite <- !append_assoc. reflexivity.
    + now rewrite !count_lf_app, !count_lf_vertex_list, !count_lf_q.
Qed.

(** * Records whose counts exceed their sequences *)

Lemma bind_panics_later {A B} (m : IO.t A) (k : A -> IO.t B) (w : string) :
  (forall a w', IO.panics (k a w') = true) ->
  IO.panics (IO.bind m k w) = true.
Proof.
  intros Hk. unfold IO.bind. destruct (m w); [apply Hk | reflexivity].
Qed.

(** X17.  A polygon or polyline record that declares more parts than it
    has offsets always makes its adapter panic, whatever the dispatcher
    does with the parts drawn before: at the latest, the offset of the
    last part is looked up past the end of [Parts]. *)
Theorem adapters_panic_on_missing_offsets
  (dispatch :
     list float64 -> list float64 -> string -> string -> float64 -> IO.t unit)
  (poly : shp.PolyLine) (g : Geometry) (c : Config) (w : string) :
  len (shp.Parts poly) < shp.NumParts poly < 2 ^ 31 ->
  IO.panics (PolygonCoords_with dispatch poly g c w) = true
  /\ IO.panics (PolylineCoords_with dispatch poly g c w) = true
  /\ IO.panics (PolygonCoords poly g c w) = true
  /\ IO.panics (PolylineCoords poly g c w) = true.
Proof.
  intros Hn.
  assert (Hlen : 0 <= len (shp.Parts poly)) by (unfold len; lia).
  assert (Hlast : wrap32 (shp.NumParts poly - 1) = shp.NumParts poly - 1)
    by (unfold wrap32; rewrite Z.mod_small; lia).
  assert (H : forall d,
             IO.panics (PolygonCoords_with d poly g c w) = true).
  { intros d. unfold PolygonCoords_with. rewrite Hlast.
    apply bind_panics_later. intros _ w'. apply bind_panics.
    rewrite index_out_of_range; [reflexivity | lia]. }
  repeat split; apply H.
Qed.

End Program.

(** * The properties at concrete inputs *)

#[local] Existing Instance no_wide_rune.

Import Fmt.

Lemma colorop_splits_at_separator_witness :
  colorop "blue:80" = ("blue", "80").
Proof.
  refine (proj1 (colorop_splits_at_separator "blue:80") "blue" "80" _ _ _).
  - reflexivity.
  - reflexivity.
  - discriminate.
Defined.

Lemma deckpolygon_short_or_uneven_witness :
  deckpolygon [F64.of_Z 0; F64.of_Z 1] [F64.of_Z 0; F64.of_Z 0] "blue:80"
    "<deck>"
  = IO.Ok tt "<deck>"
  /\ deckpolygon [F64.of_Z 0; F64.of_Z 1; F64.of_Z 1] [F64.of_Z 0] "blue"
       "<deck>"
     = IO.Ok tt "<deck>".
Proof.
  split.
  - apply deckpolygon_short_or_uneven. left. simpl. lia.
  - apply deckpolygon_short_or_uneven. right. simpl. lia.
Defined.

Lemma mapshape_unknown_keyword_and_synonyms_witness :
  mapshape [F64.of_Z 0; F64.of_Z 1; F64.of_Z 1]
           [F64.of_Z 0; F64.of_Z 0; F64.of_Z 1] "Polygon" "blue:80"
           (F64.of_Z 1) "<deck>"
  = IO.Ok tt "<deck>"
  /\ mapshape [F64.of_Z 0] [F64.of_Z 1] "border" "red" (F64.of_Z 1) ""
     = mapshape [F64.of_Z 0] [F64.of_Z 1] "l" "red" (F64.of_Z 1) "".
Proof.
  split.
  - apply (proj1 (mapshape_unknown_keyword_and_synonyms
                    _ _ "Polygon" "Polygon" _ _ _)).
    simpl. intros H.
    repeat (destruct H as [H | H]; [discriminate |]). exact H.
  - apply (proj1 (proj2 (mapshape_unknown_keyword_and_synonyms
                           _ _ "border" "l" _ _ _))).
    right; left. simpl. auto.
Defined.

Lemma deckpolyline_closed_loop_witness :
  let o := F64.of_Z 0 in
  let i := F64.of_Z 1 in
  let ii := F64.of_Z 2 in
  deckpolyline [o; i; ii] [o; o; o] "red" i EmptyString
  = IO.Ok tt
      (EmptyString
       ++ join [line_element "0.0000000" "0.0000000" "1.0000000" "0.0000000"
                  "red" "100" "1.000";
                line_element "1.0000000" "0.0000000" "2.0000000" "0.0000000"
                  "red" "100" "1.000";
                line_element "0.0000000" "0.0000000" "2.0000000" "0.0000000"
                  "red" "100" "1.000"]).
Proof.
  intros o i ii.
  exact (proj1 (deckpolyline_closed_loop [o; i; ii] [o; o; o] "red" i
                  EmptyString eq_refl (le_S _ _ (le_n 2)))).
Defined.



Local Open Scope Q_scope.


Local Close Scope Q_scope.

Lemma deckdot_one_element_per_pair_witness :
  deckdot [F64.of_Z 1; F64.of_Z 2] [F64.of_Z 3; F64.of_Z 4; F64.of_Z 5]
          "red" (F64.of_Z 1) ""
  = IO.Ok tt
      ("" ++ join [dotfmt (F64.of_Z 1) (F64.of_Z 3) "red" "100" (F64.of_Z 1);
                   dotfmt (F64.of_Z 2) (F64.of_Z 4) "red" "100" (F64.of_Z 1)]).
Proof.
  exact (proj1 (deckdot_one_element_per_pair
                  [F64.of_Z 1; F64.of_Z 2]
                  [F64.of_Z 3; F64.of_Z 4; F64.of_Z 5] "red" (F64.of_Z 1) ""
                  (le_S _ _ (le_n 2)))).
Defined.

Lemma deckdot_panics_after_the_common_prefix_witness :
  deckdot [F64.of_Z 1; F64.of_Z 2] [F64.of_Z 3] "red" (F64.of_Z 1) ""
  = IO.Panic
      ("" ++ join [dotfmt (F64.of_Z 1) (F64.of_Z 3) "red" "100" (F64.of_Z 1)]).
Proof.
  exact (deckdot_panics_after_the_common_prefix
           [F64.of_Z 1; F64.of_Z 2] [F64.of_Z 3] "red" (F64.of_Z 1) ""
           (le_n 2)).
Defined.

Lemma mapshape_panics_only_on_an_empty_line_witness :
  IO.panics (mapshape [] [] "border" "red" (F64.of_Z 1) "") = true
  <-> In "border" line_keywords /\ @nil float64 = [].
Proof.
  exact (mapshape_panics_only_on_an_empty_line [] [] "border" "red"
           (F64.of_Z 1) "" eq_refl).
Defined.

Lemma MultipointCoords_draws_dots_witness :
  let p := {| shp.X := F64.of_Z 1; shp.Y := F64.of_Z 2 |} in
  let p' := {| shp.X := F64.of_Z 3; shp.Y := F64.of_Z 4 |} in
  let g :=
    {| Xmin := F64.of_Z 0; Xmax := F64.of_Z 100;
       Ymin := F64.of_Z 0; Ymax := F64.of_Z 100;
       Latmin := F64.of_Z 0; Latmax := F64.of_Z 10;
       Longmin := F64.of_Z 0; Longmax := F64.of_Z 10 |} in
  let c := {| maptype := "polygon"; color := "red:50";
              shapesize := F64.of_Z 1 |} in
  MultipointCoords {| shp.MNumPoints := 2; shp.MPoints := [p; p'] |} g c ""
  = IO.Ok tt ("" ++ join [point_dot g "red:50" (F64.of_Z 1) p;
                          point_dot g "red:50" (F64.of_Z 1) p']).
Proof.
  intros p p' g c.
  refine (proj1 (MultipointCoords_draws_dots
                   {| shp.MNumPoints := 2; shp.MPoints := [p; p'] |} g c
                   "dot" "" _)).
  discriminate.
Defined.

Lemma MultipointCoords_panics_before_writing_witness :
  let p := {| shp.X := F64.of_Z 1; shp.Y := F64.of_Z 2 |} in
  let g :=
    {| Xmin := F64.of_Z 0; Xmax := F64.of_Z 100;
       Ymin := F64.of_Z 0; Ymax := F64.of_Z 100;
       Latmin := F64.of_Z 0; Latmax := F64.of_Z 10;
       Longmin := F64.of_Z 0; Longmax := F64.of_Z 10 |} in
  let c := {| maptype := "dot"; color := "red"; shapesize := F64.of_Z 1 |} in
  MultipointCoords {| shp.MNumPoints := 2; shp.MPoints := [p] |} g c "<deck>"
  = IO.Panic "<deck>".
Proof.
  intros p g c.
  refine (MultipointCoords_panics_before_writing
            {| shp.MNumPoints := 2; shp.MPoints := [p] |} g c "<deck>" _).
  reflexivity.
Defined.

Lemma adapters_panic_without_parts_witness :
  let g :=
    {| Xmin := F64.of_Z 0; Xmax := F64.of_Z 100;
       Ymin := F64.of_Z 0; Ymax := F64.of_Z 100;
       Latmin := F64.of_Z 0; Latmax := F64.of_Z 10;
       Longmin := F64.of_Z 0; Longmax := F64.of_Z 10 |} in
  let c := {| maptype := "dot"; color := "red"; shapesize := F64.of_Z 1 |} in
  PolygonCoords
    {| shp.NumParts := 0; shp.NumPoints := 0; shp.Parts := [];
       shp.Points := [] |} g c "<deck>"
  = IO.Panic "<deck>".
Proof.
  intros g c.
  refine (proj1 (proj2 (proj2 (adapters_panic_without_parts mapshape
            {| shp.NumParts := 0; shp.NumPoints := 0; shp.Parts := [];
               shp.Points := [] |} g c "<deck>" _)))).
  split; [reflexivity | discriminate].
Defined.

Lemma adapters_panic_only_on_an_empty_line_part_witness :
  let pt := fun a b =>
    {| shp.X := F64.of_Z a; shp.Y := F64.of_Z b |} in
  let poly :=
    {| shp.NumParts := 2; shp.NumPoints := 2; shp.Parts := [0; 2];
       shp.Points := [pt 0 0; pt 1 0] |} in
  let g :=
    {| Xmin := F64.of_Z 0; Xmax := F64.of_Z 100;
       Ymin := F64.of_Z 0; Ymax := F64.of_Z 100;
       Latmin := F64.of_Z 0; Latmax := F64.of_Z 10;
       Longmin := F64.of_Z 0; Longmax := F64.of_Z 10 |} in
  let c := {| maptype := "line"; color := "red"; shapesize := F64.of_Z 1 |} in
  IO.panics (PolygonCoords poly g c "") = true
  <-> In "line" line_keywords
      /\ exists i : nat, Z.of_nat i < 2
                         /\ part_end poly i <= part_start poly i.
Proof.
  intros pt poly g c.
  assert (Hwf : well_formed poly).
  { constructor; simpl; try reflexivity.
    repeat constructor; discriminate. }
  assert (Hparts : 1 <= shp.NumParts poly) by discriminate.
  exact (proj1 (adapters_panic_only_on_an_empty_line_part poly g c ""
                  Hwf Hparts)).
Defined.

Lemma adapters_draw_the_polygons_of_large_parts_witness :
  let pt := fun a b =>
    {| shp.X := F64.of_Z a; shp.Y := F64.of_Z b |} in
  let poly :=
    {| shp.NumParts := 2; shp.NumPoints := 5; shp.Parts := [0; 3];
       shp.Points := [pt 0 0; pt 1 0; pt 1 1; pt 2 2; pt 3 2] |} in
  let g :=
    {| Xmin := F64.of_Z 0; Xmax := F64.of_Z 100;
       Ymin := F64.of_Z 0; Ymax := F64.of_Z 100;
       Latmin := F64.of_Z 0; Latmax := F64.of_Z 10;
       Longmin := F64.of_Z 0; Longmax := F64.of_Z 10 |} in
  let c := {| maptype := "region"; color := "blue:80";
              shapesize := F64.of_Z 1 |} in
  PolygonCoords poly g c ""
  = IO.Ok tt
      ("" ++ join (map (fun xy => polygon_output (fst xy) (snd xy) "blue:80")
                       (parts_of poly g))).
Proof.
  intros pt poly g c.
  assert (Hwf : well_formed poly).
  { constructor; simpl; try reflexivity.
    repeat constructor; discriminate. }
  assert (Hparts : 1 <= shp.NumParts poly) by discriminate.
  assert (Hk : In (maptype c) polygon_keywords) by (simpl; auto).
  exact (proj1 (adapters_draw_the_polygons_of_large_parts poly g c ""
                  Hwf Hparts Hk)).
Defined.

Lemma adapters_draw_a_dot_per_point_witness :
  let pt := fun a b =>
    {| shp.X := F64.of_Z a; shp.Y := F64.of_Z b |} in
  let poly :=
    {| shp.NumParts := 2; shp.NumPoints := 3; shp.Parts := [0; 2];
       shp.Points := [pt 0 0; pt 1 0; pt 1 1] |} in
  let g :=
    {| Xmin := F64.of_Z 0; Xmax := F64.of_Z 100;
       Ymin := F64.of_Z 0; Ymax := F64.of_Z 100;
       Latmin := F64.of_Z 0; Latmax := F64.of_Z 10;
       Longmin := F64.of_Z 0; Longmax := F64.of_Z 10 |} in
  let c := {| maptype := "circle"; color := "red";
              shapesize := F64.of_Z 1 |} in
  PolygonCoords poly g c ""
  = IO.Ok tt
      ("" ++ join (map (fun i =>
                     join (map (point_dot g "red" (F64.of_Z 1))
                               (points_between (shp.Points poly)
                                  (part_start poly i) (part_end poly i))))
                   (seq 0 (Z.to_nat (shp.NumParts poly))))).
Proof.
  intros pt poly g c.
  assert (Hwf : well_formed poly).
  { constructor; simpl; try reflexivity.
    repeat constructor; discriminate. }
  assert (Hparts : 1 <= shp.NumParts poly) by discriminate.
  assert (Hk : In (maptype c) dot_keywords) by (simpl; auto).
  exact (proj1 (adapters_draw_a_dot_per_point poly g c "" Hwf Hparts Hk)).
Defined.

Lemma vmap_without_finite_result_witness :
  F64.is_number
    (vmap (F64.of_Z 5) (F64.of_Z 7) (F64.of_Z 7) (F64.of_Z 0) (F64.of_Z 100))
  = false
  /\ In (Fmt.f 7 (vmap (F64.of_Z 5) (F64.of_Z 7) (F64.of_Z 7) (F64.of_Z 0)
                       (F64.of_Z 100)))
        ["NaN"; "+Inf"; "-Inf"].
Proof.
  destruct (vmap_without_finite_result (F64.of_Z 5) (F64.of_Z 7) (F64.of_Z 7)
              (F64.of_Z 0) (F64.of_Z 100) 7 eq_refl) as (H & Hf & _).
  exact (conj H Hf).
Defined.

Lemma adapters_panic_on_missing_offsets_witness :
  let pt := fun a b =>
    {| shp.X := F64.of_Z a; shp.Y := F64.of_Z b |} in
  let poly :=
    {| shp.NumParts := 2; shp.NumPoints := 3; shp.Parts := [0];
       shp.Points := [pt 0 0; pt 1 0; pt 1 1] |} in
  let g :=
    {| Xmin := F64.of_Z 0; Xmax := F64.of_Z 100;
       Ymin := F64.of_Z 0; Ymax := F64.of_Z 100;
       Latmin := F64.of_Z 0; Latmax := F64.of_Z 10;
       Longmin := F64.of_Z 0; Longmax := F64.of_Z 10 |} in
  let c := {| maptype := "dot"; color := "red"; shapesize := F64.of_Z 1 |} in
  IO.panics (PolylineCoords poly g c "") = true.
Proof.
  intros pt poly g c.
  refine (proj2 (proj2 (proj2
            (adapters_panic_on_missing_offsets mapshape poly g c "" _)))).
  split; reflexivity.
Defined.
